(** * Binary edge-list loaders of LLAMA: a shallow embedding

    The development follows [llama/loaders/ll_load_bin.h] (the synthetic
    "Kron" directory format: [ll_loader_bin], [kron_reader], [bin_loader])
    and the plain-directory revision of the same header (its [bin_loader]
    reads every file of a directory in iteration order).

    Conventions.
    - [uint64_t] and [size_t] values are integers in [Z]; every arithmetic
      operation of the source that can leave the 64-bit range is followed by
      [wrap64].
    - A backing file is the list of complete 16-byte records it holds, each
      record being the pair [(first, second)] of its two consecutive 64-bit
      integers, exactly as [fread] stores it into a
      [std::pair<uint64_t, uint64_t>].
    - [abort()], uncaught exceptions and undefined behaviour end the
      computation with [Fatal]; the trace of file-system calls made so far
      is kept. *)

From Stdlib Require Import ZArith String List Bool Lia.
From Stdlib Require Import DecimalString DecimalN.
Import ListNotations.

Open Scope string_scope.
Open Scope list_scope.
Open Scope Z_scope.

(** ** Machine integers and records *)

Definition wrap64 (z : Z) : Z := z mod 2 ^ 64.

Definition NodeType : Type := Z.

(** [std::pair<NodeType, NodeType>]: [fst] is [first], [snd] is [second]. *)
Definition EdgeType : Type := (NodeType * NodeType)%type.

Definition sizeof_EdgeType : Z := 16.

(** [inline static const size_t BUFFER_SIZE = 1024 * 1024;] *)
Definition BUFFER_SIZE : Z := 1024 * 1024.

(** ** The host: directories, files and the path pattern *)

(** A file is named by its directory and its name inside the directory
    ([_path / filename(file_id)], [_iter->path()]). *)
Definition file_path : Type := (string * string)%type.

(** [host_dir d] lists the entries of directory [d] in the order a
    [std::filesystem::directory_iterator] visits them, with the records each
    file holds.  [host_regex p] stands for the two capture groups of
    [KRON_FILE_FORMAT_REGEX] found by [std::regex_search] in [p], as the
    numbers their digits denote; [None] when the pattern does not occur.
    Backing files are never written during a load, so the host is a fixed
    parameter of every operation. *)
Record host : Type := {
  host_dir : string -> option (list (string * list EdgeType));
  host_regex : string -> option (Z * Z)
}.

Fixpoint assoc {A : Type} (k : string) (l : list (string * A)) : option A :=
  match l with
  | [] => None
  | (k', v) :: t => if String.eqb k k' then Some v else assoc k t
  end.

Definition file_content (h : host) (p : file_path) : option (list EdgeType) :=
  match host_dir h (fst p) with
  | Some entries => assoc (snd p) entries
  | None => None
  end.

(** ** Fatal conditions, traces and the [io] monad *)

Inductive fatal : Type :=
| ConfigNotDivisible      (* "Can not split %lu edges into %lu parts" *)
| ConfigPartOutOfBounds   (* "The partial load part ID is out of bounds" *)
| OpenFailed (p : file_path)  (* "Open file '%s' failed." *)
| NoFileInDirectory (d : string)  (* "No file in directory '%s'" *)
| Exception (what : string)   (* uncaught C++ exception *)
| Undefined (what : string)   (* undefined behaviour in C++ *)
| OutOfFuel.                  (* only for the bounded loop of the model *)

Inductive io_event : Type :=
| EvFileSize (p : file_path)
| EvListDir (d : string)
| EvOpen (p : file_path)
| EvClose (p : file_path)
| EvSeek (p : file_path) (offset : Z)
| EvRead (p : file_path) (count : Z).

Inductive result (A : Type) : Type :=
| Ok (a : A)
| Fatal (e : fatal).
Arguments Ok {A} a.
Arguments Fatal {A} e.

(** A computation takes the trace so far (newest event first) and returns
    its result with the extended trace. *)
Definition io (A : Type) : Type := list io_event -> result A * list io_event.

Definition ret {A : Type} (a : A) : io A := fun log => (Ok a, log).

Definition bind {A B : Type} (m : io A) (f : A -> io B) : io B :=
  fun log =>
    match m log with
    | (Ok a, log') => f a log'
    | (Fatal e, log') => (Fatal e, log')
    end.

Definition abort {A : Type} (e : fatal) : io A := fun log => (Fatal e, log).

Definition emit (ev : io_event) : io unit := fun log => (Ok tt, ev :: log).

Definition lift {A : Type} (r : result A) : io A := fun log => (r, log).

Declare Scope io_scope.
Delimit Scope io_scope with io.
Notation "x <- m ;; k" := (bind m (fun x => k))
  (at level 100, m at next level, right associativity) : io_scope.
Notation "' pat <- m ;; k" := (bind m (fun x => match x with pat => k end))
  (at level 100, pat pattern, m at next level, right associativity) : io_scope.
Notation "m ;;; k" := (bind m (fun _ => k))
  (at level 100, right associativity) : io_scope.
Open Scope io_scope.

(** Number of [fopen] calls recorded in a trace. *)
Fixpoint opens (log : list io_event) : nat :=
  match log with
  | [] => 0%nat
  | EvOpen _ :: t => S (opens t)
  | _ :: t => opens t
  end.

(** ** C streams *)

(** An open [FILE*]: the file it reads, the byte offset of the next read
    and the end-of-file indicator.  A null pointer is [None]. *)
Record FILE : Type := {
  f_path : file_path;
  f_pos : Z;
  f_eof : bool
}.

(** [fopen(p, "rb")]: null when the file does not exist. *)
Definition fopen (h : host) (p : file_path) : io (option FILE) :=
  match file_content h p with
  | Some _ => emit (EvOpen p) ;;; ret (Some {| f_path := p; f_pos := 0; f_eof := false |})
  | None => ret None
  end.

Definition fclose (f : FILE) : io unit := emit (EvClose (f_path f)).

(** [fseek(f, offset, SEEK_SET)] also clears the end-of-file indicator. *)
Definition fseek (f : FILE) (offset : Z) : io FILE :=
  emit (EvSeek (f_path f) offset) ;;;
  ret {| f_path := f_path f; f_pos := offset; f_eof := false |}.

(** [fread(buf, sizeof(EdgeType), count, f)]: the complete records from the
    current offset on, at most [count] of them; a short read sets the
    end-of-file indicator.  Read errors do not occur on this host, so
    [ferror] is always 0. *)
Definition fread (h : host) (f : FILE) (count : Z) : io (list EdgeType * FILE) :=
  let content := match file_content h (f_path f) with Some c => c | None => [] end in
  let data := firstn (Z.to_nat count)
                (skipn (Z.to_nat (f_pos f / sizeof_EdgeType)) content) in
  emit (EvRead (f_path f) count) ;;;
  ret (data,
       {| f_path := f_path f;
          f_pos := f_pos f + sizeof_EdgeType * Z.of_nat (length data);
          f_eof := f_eof f || (Z.of_nat (length data) <? count) |}).

Definition feof (f : FILE) : bool := f_eof f.

(** [std::filesystem::file_size]: throws when the file does not exist. *)
Definition file_size (h : host) (p : file_path) : io Z :=
  match file_content h p with
  | Some c => emit (EvFileSize p) ;;; ret (sizeof_EdgeType * Z.of_nat (length c))
  | None => abort (Exception "filesystem_error")
  end.

(** The record array [new EdgeType[BUFFER_SIZE]] is kept as the list of its
    leading cells that have been written; [std::pair]'s default constructor
    zeroes the others.  Reading cell [i] is defined for [i < BUFFER_SIZE]. *)
Definition buffer_get (buffer : list EdgeType) (i : Z) : EdgeType :=
  nth (Z.to_nat i) buffer (0, 0).

(** [fread] into the array overwrites a prefix and keeps the rest. *)
Definition buffer_fill (buffer data : list EdgeType) : list EdgeType :=
  data ++ skipn (length data) buffer.

(** * The synthetic ("Kron") directory format: [ll_load_bin.h] *)

Module Kron.

(** ** [ll_loader_bin::kron_reader] *)

Record kron_reader : Type := {
  _path : string;
  _buffer : list EdgeType;
  _cur : Z;            (* cursor of buffer *)
  _begin : Z;          (* order of first *)
  _len : Z;            (* edges count in buffer *)
  _file : option FILE;
  _cur_file_id : Z;
  _total_nodes : Z;
  _total_edges : Z;
  _edges_per_file : Z
}.

(** [sprintf(name_buffer, "block-%02lu.bin", file_id)] *)
Definition filename (file_id : Z) : string :=
  let digits := NilZero.string_of_uint (N.to_uint (Z.to_N file_id)) in
  String.append "block-"
    (String.append (if file_id <? 10 then String.append "0" digits else digits)
       ".bin").

Definition filepath (r : kron_reader) (file_id : Z) : file_path :=
  (_path r, filename file_id).

(** The constructor.  [std::stoul] throws on an empty capture and on a
    number that does not fit [unsigned long]; [1ull << n] is undefined for
    [n >= 64]. *)
Definition kron_reader_new (h : host) (path : string) : io kron_reader :=
  match host_regex h path with
  | None => abort (Exception "invalid_argument")
  | Some (n, m) =>
      if (2 ^ 64 <=? n) || (2 ^ 64 <=? m) then abort (Exception "out_of_range")
      else if 64 <=? n then abort (Undefined "shift count")
      else
        let total_nodes := wrap64 (Z.shiftl 1 n) in
        let total_edges := wrap64 (total_nodes * m) in
        size <- file_size h (path, filename 0) ;;
        ret {| _path := path; _buffer := []; _cur := 0; _begin := 0; _len := 0;
               _file := None; _cur_file_id := 0;
               _total_nodes := total_nodes; _total_edges := total_edges;
               _edges_per_file := size / sizeof_EdgeType |}
  end.

(** The assignment [_cur = c]. *)
Definition set_cur (r : kron_reader) (c : Z) : kron_reader :=
  {| _path := _path r; _buffer := _buffer r; _cur := c;
     _begin := _begin r; _len := _len r; _file := _file r;
     _cur_file_id := _cur_file_id r; _total_nodes := _total_nodes r;
     _total_edges := _total_edges r; _edges_per_file := _edges_per_file r |}.

(** Lines 201-212 of [seek]: make [_file] the stream of file [file_id]. *)
Definition seek_open (h : host) (file_id : Z) (r : kron_reader) : io (FILE * Z) :=
  match _file r with
  | Some f =>
      if negb (file_id =? _cur_file_id r) then
        fclose f ;;;
        o <- fopen h (filepath r file_id) ;;
        match o with
        | None => abort (OpenFailed (filepath r file_id))
        | Some f' => ret (f', file_id)
        end
      else ret (f, _cur_file_id r)
  | None =>
      o <- fopen h (filepath r file_id) ;;
      match o with
      | None => abort (OpenFailed (filepath r file_id))
      | Some f' => ret (f', file_id)
      end
  end.

(** [bool seek(size_t n)]: seek to the nth edge in dataset. *)
Definition seek (h : host) (n : Z) (r : kron_reader) : io (bool * kron_reader) :=
  if _total_edges r <=? n then ret (false, r)
  else if (_begin r <=? n) && (n <? wrap64 (_begin r + _len r)) then
    ret (true, set_cur r (wrap64 (n - _begin r)))
  else if _edges_per_file r =? 0 then abort (Undefined "division by zero")
  else
    let file_id := n / _edges_per_file r in
    let file_off := n mod _edges_per_file r in
    '(f, id) <- seek_open h file_id r ;;
    f1 <- fseek f (wrap64 (file_off * sizeof_EdgeType)) ;;
    '(data, f2) <- fread h f1 BUFFER_SIZE ;;
    ret (true,
         {| _path := _path r; _buffer := buffer_fill (_buffer r) data;
            _cur := 0; _begin := n; _len := Z.of_nat (length data);
            _file := Some f2; _cur_file_id := id;
            _total_nodes := _total_nodes r; _total_edges := _total_edges r;
            _edges_per_file := _edges_per_file r |}).

(** Lines 232-235 of [next]: hand out cell [_cur] and advance.  The outputs
    are returned as the pair [(tail, head)]. *)
Definition next_emit (r : kron_reader) : io (option (NodeType * NodeType) * kron_reader) :=
  if _cur r <? BUFFER_SIZE then
    let tail := snd (buffer_get (_buffer r) (_cur r)) in
    let head := fst (buffer_get (_buffer r) (_cur r)) in
    ret (Some (tail, head), set_cur r (wrap64 (_cur r + 1)))
  else abort (Undefined "buffer index out of bounds").

(** [bool next(NodeType* tail, NodeType* head)]: [None] is the [false]
    return, which leaves the outputs untouched. *)
Definition next (h : host) (r : kron_reader) : io (option (NodeType * NodeType) * kron_reader) :=
  if _cur r =? _len r then
    '(ok, r1) <- seek h (wrap64 (_begin r + _len r)) r ;;
    if negb ok then ret (None, r1) else next_emit r1
  else next_emit r.

Definition total_edges (r : kron_reader) : Z := _total_edges r.
Definition total_nodes (r : kron_reader) : Z := _total_nodes r.

(** ** [ll_loader_bin::bin_loader], the edge-list adapter

    The adapter holds a raw pointer to the reader owned by the front end;
    every operation therefore takes the shared reader and returns it
    updated, next to the adapter's own fields. *)

Record bin_loader : Type := {
  _begin_edge : Z;
  _needed_edges : Z;
  _loaded_edges : Z
}.

(** [virtual void rewind()]: the result of [seek] is dropped. *)
Definition rewind (h : host) (l : bin_loader) (r : kron_reader) : io (bin_loader * kron_reader) :=
  '(_, r1) <- seek h (_begin_edge l) r ;;
  ret ({| _begin_edge := _begin_edge l; _needed_edges := _needed_edges l;
          _loaded_edges := 0 |}, r1).

(** [bin_loader(kron_reader* reader, uint64_t needed, uint64_t begin)] *)
Definition bin_loader_new (h : host) (r : kron_reader) (needed begin : Z) : io (bin_loader * kron_reader) :=
  rewind h {| _begin_edge := begin; _needed_edges := needed; _loaded_edges := 0 |} r.

(** [virtual bool next_edge(o_tail, o_head, o_weight)]: [Some (tail, head)]
    is the [true] return; [o_weight] is never written. *)
Definition next_edge (h : host) (l : bin_loader) (r : kron_reader) : io (option (NodeType * NodeType) * bin_loader * kron_reader) :=
  if _loaded_edges l =? _needed_edges l then ret (None, l, r)
  else
    '(o, r1) <- next h r ;;
    let ok := match o with Some _ => 1 | None => 0 end in
    ret (o,
         {| _begin_edge := _begin_edge l; _needed_edges := _needed_edges l;
            _loaded_edges := wrap64 (_loaded_edges l + ok) |}, r1).

(** [virtual bool stat(size_t* o_nodes, size_t* o_edges)]:
    [Some (o_nodes, o_edges)] is the [true] return. *)
Definition stat (l : bin_loader) (r : kron_reader) : io (option (Z * Z) * bin_loader * kron_reader) :=
  ret (Some (total_nodes r, _needed_edges l), l, r).

(** ** [ll_loader_bin], the front end *)

(** The two fields of [ll_loader_config] that [init] reads.  The class is
    declared outside this header; both fields are taken as [size_t]. *)
Record ll_loader_config : Type := {
  lc_partial_load_num_parts : Z;
  lc_partial_load_part : Z
}.

(** [std::unique_ptr<kron_reader> _reader; std::string _path;] *)
Record ll_loader_bin : Type := {
  loader_reader : option kron_reader;
  loader_path : string
}.

(** [ll_loader_bin()] *)
Definition ll_loader_bin_new : ll_loader_bin :=
  {| loader_reader := None; loader_path := "" |}.

(** Lines 32-35 of [init]: reuse the cached reader or open a new one. *)
Definition init_reader (h : host) (st : ll_loader_bin) (file : string) : io kron_reader :=
  match loader_reader st with
  | Some r => if String.eqb (loader_path st) file then ret r else kron_reader_new h file
  | None => kron_reader_new h file
  end.

(** Lines 37-54 of [init]: the partition planner.  It returns
    [(needed_edge, begin_edge)]; a null [config] is [None]. *)
Definition plan (total_edges : Z) (config : option ll_loader_config) : result (Z * Z) :=
  let begin_edge := 0 in
  let needed_edge := total_edges in
  match config with
  | Some c =>
      if 0 <? lc_partial_load_num_parts c then
        let nparts := lc_partial_load_num_parts c in
        if negb (needed_edge mod nparts =? 0) then Fatal ConfigNotDivisible
        else if (lc_partial_load_part c <=? 0) || (nparts <? lc_partial_load_part c)
        then Fatal ConfigPartOutOfBounds
        else
          let needed_edge := needed_edge / nparts in
          let begin_edge := wrap64 ((lc_partial_load_part c - 1) * needed_edge) in
          Ok (needed_edge, begin_edge)
      else Ok (needed_edge, begin_edge)
  | None => Ok (needed_edge, begin_edge)
  end.

(** A configuration that asks for part [part] of [nparts]. *)
Definition shard (nparts part : Z) : option ll_loader_config :=
  Some {| lc_partial_load_num_parts := nparts; lc_partial_load_part := part |}.

(** [std::pair<uint64_t, uint64_t> init(const char* file, const
    ll_loader_config* config)]; the reader it leaves in [_reader] is
    returned with the pair. *)
Definition init (h : host) (st : ll_loader_bin) (file : string) (config : option ll_loader_config) : io (Z * Z * kron_reader) :=
  r <- init_reader h st file ;;
  '(needed_edge, begin_edge) <- lift (plan (total_edges r) config) ;;
  ret (needed_edge, begin_edge, r).

(** [virtual ll_data_source* create_data_source(const char* file)]: the new
    adapter, and the front end whose reader the adapter points to. *)
Definition create_data_source (h : host) (st : ll_loader_bin) (file : string) : io (bin_loader * ll_loader_bin) :=
  '(needed_edge, begin_edge, r) <- init h st file None ;;
  '(l, r1) <- bin_loader_new h r needed_edge begin_edge ;;
  ret (l, {| loader_reader := Some r1; loader_path := file |}).

(** [n] calls of [next] on the reader, with every return value. *)
Fixpoint nexts (h : host) (n : nat) (r : kron_reader) : io (list (option (NodeType * NodeType)) * kron_reader) :=
  match n with
  | O => ret ([], r)
  | S n' =>
      '(o, r1) <- next h r ;;
      '(os, r2) <- nexts h n' r1 ;;
      ret (o :: os, r2)
  end.

(** [n] calls of [next_edge] on the adapter, with every return value. *)
Fixpoint next_edges (h : host) (n : nat) (l : bin_loader) (r : kron_reader) : io (list (option (NodeType * NodeType)) * bin_loader * kron_reader) :=
  match n with
  | O => ret ([], l, r)
  | S n' =>
      '(o, l1, r1) <- next_edge h l r ;;
      '(os, l2, r2) <- next_edges h n' l1 r1 ;;
      ret (o :: os, l2, r2)
  end.

End Kron.

(** * The plain directory format: the directory-iterating revision *)

Module Plain.

(** The [FILE*] member: null, an open stream, or the stale pointer left
    behind by [fclose]. *)
Inductive FILE_ptr : Type :=
| NULL
| Stream (f : FILE)
| Closed.

(** [_iter] is the list of the names still ahead, the current entry first;
    the end iterator is [[]]. *)
Record bin_loader : Type := {
  _loaded_edges : Z;
  _buffer : list EdgeType;
  _cur : Z;
  _count : Z;
  _dir : string;
  _iter : list string;
  _file : FILE_ptr
}.

(** [bool open_file(const char* file)] always returns [true]; the new value
    of [_file] is returned instead. *)
Definition open_file (h : host) (p : file_path) : io FILE_ptr :=
  o <- fopen h p ;;
  match o with
  | None => abort (OpenFailed p)
  | Some f => ret (Stream f)
  end.

(** [bool next_file()] *)
Definition next_file (h : host) (l : bin_loader) : io (bool * bin_loader) :=
  match _file l with
  | Stream f =>
      fclose f ;;;
      match _iter l with
      | [] => abort (Undefined "increment of the end iterator")
      | _ :: [] =>
          ret (false,
               {| _loaded_edges := _loaded_edges l; _buffer := _buffer l;
                  _cur := _cur l; _count := _count l; _dir := _dir l;
                  _iter := []; _file := Closed |})
      | _ :: (name :: _) as rest =>
          fp <- open_file h (_dir l, name) ;;
          ret (true,
               {| _loaded_edges := _loaded_edges l; _buffer := _buffer l;
                  _cur := _cur l; _count := _count l; _dir := _dir l;
                  _iter := rest; _file := fp |})
      end
  | NULL => abort (Undefined "fclose of a null stream")
  | Closed => abort (Undefined "fclose of a closed stream")
  end.

(** [_count = fread(_buffer, sizeof(EdgeType), BUFFER_SIZE, _file);] *)
Definition fill (h : host) (l : bin_loader) : io bin_loader :=
  match _file l with
  | Stream f =>
      '(data, f1) <- fread h f BUFFER_SIZE ;;
      ret {| _loaded_edges := _loaded_edges l;
             _buffer := buffer_fill (_buffer l) data;
             _cur := _cur l; _count := Z.of_nat (length data); _dir := _dir l;
             _iter := _iter l; _file := Stream f1 |}
  | NULL => abort (Undefined "fread of a null stream")
  | Closed => abort (Undefined "fread of a closed stream")
  end.

Definition at_eof (l : bin_loader) : bool :=
  match _file l with
  | Stream f => feof f
  | _ => false
  end.

(** The [do ... while (_count == 0)] loop of [read_buffer]; [fuel] bounds
    the number of rounds. *)
Fixpoint read_buffer_loop (h : host) (fuel : nat) (l : bin_loader) : io (bool * bin_loader) :=
  match fuel with
  | O => abort OutOfFuel
  | S fuel' =>
      l1 <- fill h l ;;
      '(ok, l2) <- (if at_eof l1 then next_file h l1 else ret (true, l1)) ;;
      if negb ok then ret (false, l2)
      else
        l3 <- fill h l2 ;;
        if _count l3 =? 0 then read_buffer_loop h fuel' l3
        else
          ret (true,
               {| _loaded_edges := _loaded_edges l3; _buffer := _buffer l3;
                  _cur := 0; _count := _count l3; _dir := _dir l3;
                  _iter := _iter l3; _file := _file l3 |})
  end.

(** [bool read_buffer()].  A round that goes round again has read nothing
    last, so the next round starts at the end of a file and moves to the
    next entry: two rounds more than there are entries ahead are enough. *)
Definition read_buffer (h : host) (l : bin_loader) : io (bool * bin_loader) :=
  read_buffer_loop h (S (S (length (_iter l)))) l.

(** Lines 186-190 of [next_edge]; the outputs are the pair [(tail, head)]. *)
Definition next_edge_emit (l : bin_loader) : io (option (NodeType * NodeType) * bin_loader) :=
  if _cur l <? BUFFER_SIZE then
    let head := fst (buffer_get (_buffer l) (_cur l)) in
    let tail := snd (buffer_get (_buffer l) (_cur l)) in
    ret (Some (tail, head),
         {| _loaded_edges := wrap64 (_loaded_edges l + 1); _buffer := _buffer l;
            _cur := wrap64 (_cur l + 1); _count := _count l; _dir := _dir l;
            _iter := _iter l; _file := _file l |})
  else abort (Undefined "buffer index out of bounds").

(** [virtual bool next_edge(o_tail, o_head, o_weight)] *)
Definition next_edge (h : host) (l : bin_loader) : io (option (NodeType * NodeType) * bin_loader) :=
  if _cur l =? _count l then
    '(ok, l1) <- read_buffer h l ;;
    if negb ok then ret (None, l1) else next_edge_emit l1
  else next_edge_emit l.

(** [DirIter(_dir)]: throws when [_dir] is not a directory. *)
Definition DirIter (h : host) (dir : string) : io (list string) :=
  match host_dir h dir with
  | Some entries => emit (EvListDir dir) ;;; ret (map fst entries)
  | None => abort (Exception "filesystem_error")
  end.

(** [virtual void rewind()] *)
Definition rewind (h : host) (l : bin_loader) : io bin_loader :=
  (match _file l with
   | NULL => ret tt
   | Stream f => fclose f
   | Closed => abort (Undefined "fclose of a closed stream")
   end) ;;;
  it <- DirIter h (_dir l) ;;
  match it with
  | name :: _ =>
      fp <- open_file h (_dir l, name) ;;
      ret {| _loaded_edges := 0; _buffer := _buffer l; _cur := 0; _count := 0;
             _dir := _dir l; _iter := it; _file := fp |}
  | [] => abort (NoFileInDirectory (_dir l))
  end.

(** [bin_loader(const char* file_name)]; the members the constructor leaves
    unset are all assigned by [rewind] before they are read. *)
Definition bin_loader_new (h : host) (file_name : string) : io bin_loader :=
  rewind h {| _loaded_edges := 0; _buffer := []; _cur := 0; _count := 0;
              _dir := file_name; _iter := []; _file := NULL |}.

(** [virtual bool stat(size_t* o_nodes, size_t* o_edges)]: [None] is the
    [false] return, which leaves the outputs untouched. *)
Definition stat (l : bin_loader) : io (option (Z * Z) * bin_loader) :=
  ret (None, l).

(** [n] calls of [next_edge], with every return value. *)
Fixpoint next_edges (h : host) (n : nat) (l : bin_loader) : io (list (option (NodeType * NodeType)) * bin_loader) :=
  match n with
  | O => ret ([], l)
  | S n' =>
      '(o, l1) <- next_edge h l ;;
      '(os, l2) <- next_edges h n' l1 ;;
      ret (o :: os, l2)
  end.

End Plain.

(** * Well-formed synthetic inputs and the reader invariant *)

Module KronInv.
Import Kron.

(** The record with logical index [n], as [seek] addresses it: record
    [n % _edges_per_file] of file [n / _edges_per_file]. *)
Definition stream_at (h : host) (r : kron_reader) (n : Z) : option EdgeType :=
  match file_content h (filepath r (n / _edges_per_file r)) with
  | Some c => nth_error c (Z.to_nat (n mod _edges_per_file r))
  | None => None
  end.

(** What the reader hands out for an on-disk record: [(tail, head)]. *)
Definition emitted (e : EdgeType) : NodeType * NodeType := (snd e, fst e).

Definition record_at (h : host) (r : kron_reader) (n : Z) : NodeType * NodeType :=
  match stream_at h r n with
  | Some e => emitted e
  | None => (0, 0)
  end.

(** The [k] records from logical index [b] on, as handed out. *)
Definition records (h : host) (r : kron_reader) (b : Z) (k : nat) : list (NodeType * NodeType) :=
  map (fun i => record_at h r (b + Z.of_nat i)) (seq 0 k).

Definition is_some {A : Type} (o : option A) : bool :=
  match o with Some _ => true | None => false end.

(** The input a reader was opened on is well formed when the files are
    uniform (none holds more than [_edges_per_file] records, a number that
    is positive), every logical index below [_total_edges] is backed by a
    record, and the sizes leave the 64-bit index arithmetic room. *)
Definition kron_wf (h : host) (r : kron_reader) : bool :=
  (0 <? _edges_per_file r)
  && (_edges_per_file r * sizeof_EdgeType <? 2 ^ 63)
  && (0 <=? _total_edges r)
  && (_total_edges r + BUFFER_SIZE <? 2 ^ 64)
  && match host_dir h (_path r) with
     | Some entries =>
         forallb (fun e => Z.of_nat (length (snd e)) <=? _edges_per_file r) entries
     | None => false
     end
  && forallb (fun i => is_some (stream_at h r (Z.of_nat i)))
       (seq 0 (Z.to_nat (_total_edges r))).

(** Two states of a reader over the same input. *)
Definition same_input (r r' : kron_reader) : Prop :=
  _path r' = _path r /\ _total_nodes r' = _total_nodes r
  /\ _total_edges r' = _total_edges r /\ _edges_per_file r' = _edges_per_file r.

(** The invariant of a reader: the cursor lies in the window, the window
    holds the records of the stream it stands for, and the open stream is
    the one of file [_cur_file_id]. *)
Record kron_inv (h : host) (r : kron_reader) : Prop := {
  inv_cur : 0 <= _cur r <= _len r;
  inv_len : _len r <= BUFFER_SIZE;
  inv_begin : 0 <= _begin r <= _total_edges r;
  inv_window : forall i, 0 <= i < _len r ->
      exists e, nth_error (_buffer r) (Z.to_nat i) = Some e
                /\ stream_at h r (_begin r + i) = Some e;
  inv_file : forall f, _file r = Some f -> f_path f = filepath r (_cur_file_id r)
}.

(** The logical index of the record the next call of [next] hands out. *)
Definition position (r : kron_reader) : Z := _begin r + _cur r.

(** [i] rounds of [rewind] followed by [_needed_edges] calls of
    [next_edge], with the return values of every round. *)
Fixpoint replays (h : host) (i : nat) (l : bin_loader) (r : kron_reader) : io (list (list (option (NodeType * NodeType))) * bin_loader * kron_reader) :=
  match i with
  | O => ret ([], l, r)
  | S i' =>
      '(l1, r1) <- rewind h l r ;;
      '(os, l2, r2) <- next_edges h (Z.to_nat (_needed_edges l1)) l1 r1 ;;
      '(oss, l3, r3) <- replays h i' l2 r2 ;;
      ret (os :: oss, l3, r3)
  end.

End KronInv.

(** * Sample hosts *)

(** A synthetic directory for [n = 2], [m = 2]: 4 nodes, 8 edges, in two
    files of 4 records. *)
Definition kron_host : host :=
  {| host_dir := fun d =>
       if String.eqb d "data/Kron2-2"
       then Some [("block-00.bin", [(10, 11); (12, 13); (14, 15); (16, 17)]);
                  ("block-01.bin", [(18, 19); (20, 21); (22, 23); (24, 25)])]
       else None;
     host_regex := fun p => if String.eqb p "data/Kron2-2" then Some (2, 2) else None |}.

(** The reader the constructor returns on [kron_host]. *)
Definition kron_fresh : Kron.kron_reader :=
  {| Kron._path := "data/Kron2-2"; Kron._buffer := []; Kron._cur := 0;
     Kron._begin := 0; Kron._len := 0; Kron._file := None;
     Kron._cur_file_id := 0; Kron._total_nodes := 4; Kron._total_edges := 8;
     Kron._edges_per_file := 4 |}.

(** A directory named for [n = 1], [m = 1] (2 edges) whose only file holds
    3 records. *)
Definition long_host : host :=
  {| host_dir := fun d =>
       if String.eqb d "Kron1-1"
       then Some [("block-00.bin", [(1, 2); (3, 4); (5, 6)])]
       else None;
     host_regex := fun p => if String.eqb p "Kron1-1" then Some (1, 1) else None |}.

(** A plain directory with two files of 3 and 2 records. *)
Definition plain_host : host :=
  {| host_dir := fun d =>
       if String.eqb d "edges"
       then Some [("a.bin", [(1, 2); (3, 4); (5, 6)]); ("b.bin", [(7, 8); (9, 10)])]
       else None;
     host_regex := fun _ => None |}.

(** * Drivers and predicates for the synthetic format *)

Module KronDrive.
Import Kron KronInv.

(** The cached reader of a front end, if any, satisfies the invariant. *)
Definition loader_inv (h : host) (st : ll_loader_bin) : Prop :=
  forall r, loader_reader st = Some r -> kron_inv h r.

(** How many calls returned a record. *)
Definition count_some {A : Type} (os : list (option A)) : Z :=
  Z.of_nat (length (filter is_some os)).

(** One shard read to its end over the shared reader: plan the range as
    [init] does, build the adapter and call [next_edge] [needed_edges]
    times. *)
Definition shard_pass (h : host) (r : kron_reader) (nparts part : Z) : io (list (option (NodeType * NodeType)) * kron_reader) :=
  '(needed_edge, begin_edge) <- lift (plan (total_edges r) (shard nparts part)) ;;
  '(l, r1) <- bin_loader_new h r needed_edge begin_edge ;;
  '(os, _, r2) <- next_edges h (Z.to_nat needed_edge) l r1 ;;
  ret (os, r2).

(** The shards [parts], read one after the other over the same reader; the
    return values are concatenated. *)
Fixpoint shard_passes (h : host) (r : kron_reader) (nparts : Z) (parts : list Z) : io (list (option (NodeType * NodeType)) * kron_reader) :=
  match parts with
  | [] => ret ([], r)
  | part :: rest =>
      '(os, r1) <- shard_pass h r nparts part ;;
      '(os', r2) <- shard_passes h r1 nparts rest ;;
      ret (os ++ os', r2)
  end.

(** The part indices [1 .. nparts]. *)
Definition all_parts (nparts : Z) : list Z :=
  map (fun i => Z.of_nat i + 1) (seq 0 (Z.to_nat nparts)).

(** The number a decimal file-name field stands for. *)
Definition decimal_value (s : string) : option N :=
  match NilEmpty.uint_of_string s with
  | Some d => Some (N.of_uint d)
  | None => None
  end.

End KronDrive.

(** * Predicates for the plain directory format *)

Module PlainInv.

(** The adapter reads file [name] of directory [d], [rem] are the records
    of that file still ahead of the stream offset, and [rest] are the
    entries after it, with their contents. *)
Definition plain_at (h : host) (d : string) (l : Plain.bin_loader) (name : string) (rem : list EdgeType) (rest : list (string * list EdgeType)) : Prop :=
  Plain._dir l = d
  /\ Plain._iter l = name :: map fst rest
  /\ exists f c,
       Plain._file l = Plain.Stream f /\ f_path f = (d, name) /\ 0 <= f_pos f
       /\ file_content h (d, name) = Some c
       /\ skipn (Z.to_nat (f_pos f / sizeof_EdgeType)) c = rem.

(** Every entry is a file of the directory with the content listed, and
    holds fewer records than the buffer. *)
Definition short_files (h : host) (d : string) (entries : list (string * list EdgeType)) : Prop :=
  Forall (fun e => file_content h (d, fst e) = Some (snd e)
                   /\ Z.of_nat (length (snd e)) < BUFFER_SIZE) entries.

(** The first entry that holds a record, and the entries after it. *)
Fixpoint first_nonempty (entries : list (string * list EdgeType)) : option ((string * list EdgeType) * list (string * list EdgeType)) :=
  match entries with
  | [] => None
  | e :: t =>
      match snd e with
      | [] => first_nonempty t
      | _ :: _ => Some (e, t)
      end
  end.

End PlainInv.

(** * More sample hosts *)

(** [kron_host] without its second file. *)
Definition missing_host : host :=
  {| host_dir := fun d =>
       if String.eqb d "data/Kron2-2"
       then Some [("block-00.bin", [(10, 11); (12, 13); (14, 15); (16, 17)])]
       else None;
     host_regex := fun p => if String.eqb p "data/Kron2-2" then Some (2, 2) else None |}.

(** [kron_host] with a second file cut to 2 records. *)
Definition truncated_host : host :=
  {| host_dir := fun d =>
       if String.eqb d "data/Kron2-2"
       then Some [("block-00.bin", [(10, 11); (12, 13); (14, 15); (16, 17)]);
                  ("block-01.bin", [(18, 19); (20, 21)])]
       else None;
     host_regex := fun p => if String.eqb p "data/Kron2-2" then Some (2, 2) else None |}.

(** A synthetic directory whose first file is empty. *)
Definition empty_first_host : host :=
  {| host_dir := fun d =>
       if String.eqb d "data/Kron2-2"
       then Some [("block-00.bin", [])]
       else None;
     host_regex := fun p => if String.eqb p "data/Kron2-2" then Some (2, 2) else None |}.

(** A directory without entries. *)
Definition empty_dir_host : host :=
  {| host_dir := fun d => if String.eqb d "empty" then Some [] else None;
     host_regex := fun _ => None |}.

(** A host on which the path [data/Kron3-1], which the pattern reads as
    [(3, 1)], is not backed by any file. *)
Definition absent_host : host :=
  {| host_dir := fun _ => None;
     host_regex := fun p => if String.eqb p "data/Kron3-1" then Some (3, 1) else None |}.

(** * Basic facts *)

Lemma BUFFER_SIZE_pos : 0 < BUFFER_SIZE.
Proof. reflexivity. Qed.

(** Proofs use the buffer size through [BUFFER_SIZE_pos] only. *)
Global Opaque BUFFER_SIZE.

(** * The partition planner *)

Section Planner.
Import Kron.

Lemma wrap64_small (z : Z) : 0 <= z < 2 ^ 64 -> wrap64 z = z.
Proof. intros Hz. unfold wrap64. apply Z.mod_small. exact Hz. Qed.

Lemma exact_division (total nparts : Z) :
  0 < nparts -> total mod nparts = 0 -> total = nparts * (total / nparts).
Proof.
  intros Hn Hm. pose proof (Z.div_mod total nparts) as E. lia.
Qed.

Lemma plan_shard (total nparts part : Z) :
  0 <= total < 2 ^ 64 -> total mod nparts = 0 -> 1 <= part <= nparts ->
  plan total (shard nparts part)
  = Ok (total / nparts, (part - 1) * (total / nparts)).
Proof.
  intros Ht Hm Hp. unfold plan, shard. cbn [lc_partial_load_num_parts lc_partial_load_part].
  assert (Hn : 0 < nparts) by lia.
  destruct (Z.ltb_spec 0 nparts) as [_ | ?]; [| lia].
  rewrite Hm. cbn [Z.eqb negb].
  destruct (Z.leb_spec part 0) as [? | _]; [lia |].
  destruct (Z.ltb_spec nparts part) as [? | _]; [lia |].
  cbn [orb]. rewrite wrap64_small; [reflexivity |].
  pose proof (exact_division total nparts Hn Hm) as E.
  assert (0 <= total / nparts) by (apply Z.div_pos; lia).
  nia.
Qed.

Lemma plan_unsharded (total : Z) (c : ll_loader_config) :
  lc_partial_load_num_parts c <= 0 -> plan total (Some c) = Ok (total, 0).
Proof.
  intros Hn. unfold plan.
  destruct (Z.ltb_spec 0 (lc_partial_load_num_parts c)); [lia | reflexivity].
Qed.

Lemma plan_not_divisible (total : Z) (c : ll_loader_config) :
  0 < lc_partial_load_num_parts c ->
  total mod lc_partial_load_num_parts c <> 0 ->
  plan total (Some c) = Fatal ConfigNotDivisible.
Proof.
  intros Hn Hm. unfold plan.
  destruct (Z.ltb_spec 0 (lc_partial_load_num_parts c)); [| lia].
  destruct (Z.eqb_spec (total mod lc_partial_load_num_parts c) 0); [contradiction |].
  reflexivity.
Qed.

Lemma plan_part_out_of_bounds (total : Z) (c : ll_loader_config) :
  0 < lc_partial_load_num_parts c ->
  lc_partial_load_part c < 1 \/ lc_partial_load_num_parts c < lc_partial_load_part c ->
  plan total (Some c) = Fatal ConfigNotDivisible
  \/ plan total (Some c) = Fatal ConfigPartOutOfBounds.
Proof.
  intros Hn Hp. unfold plan.
  destruct (Z.ltb_spec 0 (lc_partial_load_num_parts c)); [| lia].
  destruct (Z.eqb_spec (total mod lc_partial_load_num_parts c) 0); cbn [negb];
    [right | left; reflexivity].
  destruct (Z.leb_spec (lc_partial_load_part c) 0); [reflexivity |].
  destruct (Z.ltb_spec (lc_partial_load_num_parts c) (lc_partial_load_part c));
    [reflexivity | lia].
Qed.

(** [init] opens no file: the constructor of the reader only asks for the
    size of the first file. *)
Lemma kron_reader_new_opens (h : host) (path : string) log res log' :
  kron_reader_new h path log = (res, log') -> opens log' = opens log.
Proof.
  unfold kron_reader_new, file_size, bind, ret, abort, emit.
  destruct (host_regex h path) as [[n m] |].
  - destruct ((2 ^ 64 <=? n) || (2 ^ 64 <=? m)).
    + intros E; inversion E; reflexivity.
    + destruct (64 <=? n).
      * intros E; inversion E; reflexivity.
      * destruct (file_content h (path, filename 0));
          intros E; inversion E; reflexivity.
  - intros E; inversion E; reflexivity.
Qed.

Lemma init_reader_opens (h : host) (st : ll_loader_bin) (file : string) log res log' :
  init_reader h st file log = (res, log') -> opens log' = opens log.
Proof.
  unfold init_reader.
  destruct (loader_reader st) as [r |].
  - destruct (String.eqb (loader_path st) file).
    + unfold ret. intros E; inversion E; reflexivity.
    + apply kron_reader_new_opens.
  - apply kron_reader_new_opens.
Qed.

Lemma init_opens (h : host) (st : ll_loader_bin) (file : string) config log res log' :
  init h st file config log = (res, log') -> opens log' = opens log.
Proof.
  unfold init, bind, lift, ret. intros E.
  destruct (init_reader h st file log) as [[r | e] log1] eqn:Er.
  - apply init_reader_opens in Er.
    destruct (plan (total_edges r) config) as [[needed begin] | e];
      inversion E; subst; exact Er.
  - apply init_reader_opens in Er. inversion E; subst; exact Er.
Qed.

Lemma init_plan_fatal (h : host) (st : ll_loader_bin) (file : string) config log r log1 e :
  init_reader h st file log = (Ok r, log1) ->
  plan (total_edges r) config = Fatal e ->
  init h st file config log = (Fatal e, log1).
Proof.
  intros Er Ep. unfold init, bind, lift. rewrite Er, Ep. reflexivity.
Qed.

(** C1.  When [num_parts] divides [total_edges], every part index between
    1 and [num_parts] is planned as [needed_edges = total_edges / num_parts]
    and [begin_edge = (part_index - 1) * needed_edges]; the ranges
    [[begin_edge, begin_edge + needed_edges)] of two different parts share
    no index, each has [total_edges / num_parts] indices, and an index lies
    in [[0, total_edges)] exactly when it lies in the range of some part. *)
Theorem plan_partition (total nparts : Z) :
  0 <= total < 2 ^ 64 -> 0 < nparts -> total mod nparts = 0 ->
  (forall part, 1 <= part <= nparts ->
     plan total (shard nparts part)
     = Ok (total / nparts, (part - 1) * (total / nparts)))
  /\ (forall p q np bp nq bq,
        1 <= p <= nparts -> 1 <= q <= nparts -> p <> q ->
        plan total (shard nparts p) = Ok (np, bp) ->
        plan total (shard nparts q) = Ok (nq, bq) ->
        np = total / nparts /\ nq = total / nparts
        /\ forall e, ~ (bp <= e < bp + np /\ bq <= e < bq + nq))
  /\ (forall e, 0 <= e < total <->
        exists part np bp,
          1 <= part <= nparts
          /\ plan total (shard nparts part) = Ok (np, bp)
          /\ bp <= e < bp + np).
Proof.
  intros Ht Hn Hm.
  pose proof (exact_division total nparts Hn Hm) as E.
  assert (Hq : 0 <= total / nparts) by (apply Z.div_pos; lia).
  split; [| split].
  - intros part Hp. apply plan_shard; assumption.
  - intros p q np bp nq bq Hp Hq' Hne Ep Eq.
    rewrite plan_shard in Ep, Eq by assumption.
    inversion Ep; inversion Eq; subst.
    split; [reflexivity | split; [reflexivity |]].
    intros e [H1 H2]. nia.
  - intros e. split.
    + intros He.
      assert (Hpos : 0 < total / nparts) by nia.
      exists (e / (total / nparts) + 1), (total / nparts),
        (e / (total / nparts) * (total / nparts)).
      pose proof (Z.div_mod e (total / nparts)) as De.
      pose proof (Z.mod_pos_bound e (total / nparts) Hpos) as Be.
      assert (0 <= e / (total / nparts)) by (apply Z.div_pos; lia).
      assert (e / (total / nparts) < nparts) by nia.
      split; [lia |]. split.
      * rewrite plan_shard by (try assumption; lia).
        f_equal. f_equal. ring.
      * lia.
    + intros (part & np & bp & Hp & Ep & He).
      rewrite plan_shard in Ep by assumption.
      inversion Ep; subst. nia.
Qed.

Lemma plan_partition_witness :
  (forall part, 1 <= part <= 2 ->
     plan 8 (shard 2 part) = Ok (8 / 2, (part - 1) * (8 / 2)))
  /\ (forall p q np bp nq bq,
        1 <= p <= 2 -> 1 <= q <= 2 -> p <> q ->
        plan 8 (shard 2 p) = Ok (np, bp) ->
        plan 8 (shard 2 q) = Ok (nq, bq) ->
        np = 8 / 2 /\ nq = 8 / 2
        /\ forall e, ~ (bp <= e < bp + np /\ bq <= e < bq + nq))
  /\ (forall e, 0 <= e < 8 <->
        exists part np bp,
          1 <= part <= 2
          /\ plan 8 (shard 2 part) = Ok (np, bp)
          /\ bp <= e < bp + np).
Proof.
  apply (plan_partition 8 2); [lia | lia | reflexivity].
Defined.

(** C7.  With sharding requested ([num_parts > 0]) the planner ends in a
    fatal configuration error when [total_edges % num_parts <> 0] and when
    the part index lies outside [[1, num_parts]]; 3 parts of 8 edges fail
    for every part index.  [init] then ends in the same error without
    producing a range, and it has opened no file. *)
Theorem plan_rejects (total : Z) (c : ll_loader_config) :
  0 < lc_partial_load_num_parts c ->
  (total mod lc_partial_load_num_parts c <> 0 ->
     plan total (Some c) = Fatal ConfigNotDivisible)
  /\ (lc_partial_load_part c < 1
      \/ lc_partial_load_num_parts c < lc_partial_load_part c ->
      plan total (Some c) = Fatal ConfigNotDivisible
      \/ plan total (Some c) = Fatal ConfigPartOutOfBounds)
  /\ (forall part, plan 8 (shard 3 part) = Fatal ConfigNotDivisible)
  /\ (forall h st file log r log1 e,
        init_reader h st file log = (Ok r, log1) ->
        plan (total_edges r) (Some c) = Fatal e ->
        init h st file (Some c) log = (Fatal e, log1)
        /\ opens log1 = opens log).
Proof.
  intros Hn. split; [| split; [| split]].
  - intros Hm. apply plan_not_divisible; assumption.
  - intros Hp. apply plan_part_out_of_bounds; assumption.
  - intros part. apply plan_not_divisible; cbn; lia.
  - intros h st file log r log1 e Er Ep. split.
    + exact (init_plan_fatal h st file (Some c) log r log1 e Er Ep).
    + exact (init_reader_opens h st file log (Ok r) log1 Er).
Qed.

Lemma plan_rejects_witness :
  plan 8 (shard 3 1) = Fatal ConfigNotDivisible
  /\ plan 8 (shard 2 3) = Fatal ConfigPartOutOfBounds
  /\ exists log1,
      init kron_host ll_loader_bin_new "data/Kron2-2" (shard 3 1) []
      = (Fatal ConfigNotDivisible, log1)
      /\ opens log1 = opens [].
Proof.
  pose proof (plan_rejects 8
                {| lc_partial_load_num_parts := 3; lc_partial_load_part := 1 |}
                ltac:(cbn; lia)) as (H1 & _ & _ & H4).
  pose proof (plan_rejects 8
                {| lc_partial_load_num_parts := 2; lc_partial_load_part := 3 |}
                ltac:(cbn; lia)) as (_ & H2 & _).
  split; [| split].
  - apply H1. cbn. discriminate.
  - destruct H2 as [E | E]; [right; cbn; lia | | exact E].
    vm_compute in E. discriminate E.
  - eexists. eapply H4; [vm_compute; reflexivity | reflexivity].
Defined.

End Planner.

(** * The reader: [seek] and [next] *)

Section Reader.
Import Kron KronInv.

Lemma assoc_In {A : Type} (k : string) (l : list (string * A)) (v : A) :
  assoc k l = Some v -> In (k, v) l.
Proof.
  induction l as [| [k' v'] t IH]; cbn; [discriminate |].
  destruct (String.eqb_spec k k') as [-> | _].
  - intros E; inversion E; left; reflexivity.
  - intros E; right; apply IH; exact E.
Qed.

Lemma stream_at_file (h : host) (r : kron_reader) (n : Z) (e : EdgeType) :
  stream_at h r n = Some e ->
  exists c, file_content h (filepath r (n / _edges_per_file r)) = Some c
            /\ nth_error c (Z.to_nat (n mod _edges_per_file r)) = Some e.
Proof.
  unfold stream_at.
  destruct (file_content h (filepath r (n / _edges_per_file r))) as [c |];
    [| discriminate].
  intros E. exists c. split; [reflexivity | exact E].
Qed.

(** What [kron_wf] checks, as propositions. *)
Lemma kron_wf_spec (h : host) (r : kron_reader) :
  kron_wf h r = true ->
  0 < _edges_per_file r
  /\ _edges_per_file r * sizeof_EdgeType < 2 ^ 63
  /\ 0 <= _total_edges r
  /\ _total_edges r + BUFFER_SIZE < 2 ^ 64
  /\ (forall id c, file_content h (filepath r id) = Some c ->
        Z.of_nat (length c) <= _edges_per_file r)
  /\ (forall n, 0 <= n < _total_edges r -> exists e, stream_at h r n = Some e).
Proof.
  unfold kron_wf. intros H.
  repeat match type of H with
         | _ && _ = true => apply andb_prop in H; destruct H as [H ?]
         end.
  repeat split; try lia.
  - intros id c Hc. unfold file_content, filepath in Hc. cbn [fst snd] in Hc.
    destruct (host_dir h (_path r)) as [entries |]; [| discriminate].
    apply assoc_In in Hc.
    match goal with
    | Hf : forallb _ entries = true |- _ =>
        rewrite forallb_forall in Hf; specialize (Hf _ Hc); cbn [snd] in Hf
    end.
    lia.
  - intros n Hn.
    match goal with
    | Hf : forallb _ (seq _ _) = true |- _ =>
        rewrite forallb_forall in Hf; specialize (Hf (Z.to_nat n))
    end.
    rewrite Z2Nat.id in H0 by lia.
    destruct (stream_at h r n) as [e |].
    + exists e; reflexivity.
    + exfalso. assert (is_some (@None EdgeType) = true); [| discriminate].
      apply H0. apply in_seq. lia.
Qed.

Lemma same_input_refl (r : kron_reader) : same_input r r.
Proof. repeat split. Qed.

Lemma same_input_trans (r1 r2 r3 : kron_reader) :
  same_input r1 r2 -> same_input r2 r3 -> same_input r1 r3.
Proof.
  unfold same_input. intros (A1 & A2 & A3 & A4) (B1 & B2 & B3 & B4).
  repeat split; congruence.
Qed.

Lemma same_input_stream_at (h : host) (r r' : kron_reader) (n : Z) :
  same_input r r' -> stream_at h r' n = stream_at h r n.
Proof.
  intros (A1 & A2 & A3 & A4). unfold stream_at, filepath. rewrite A1, A4.
  reflexivity.
Qed.

Lemma forallb_pointwise {A : Type} (f g : A -> bool) (l : list A) :
  (forall a, f a = g a) -> forallb f l = forallb g l.
Proof.
  intros E. induction l as [| a t IH]; cbn; [reflexivity |].
  rewrite E, IH. reflexivity.
Qed.

Lemma same_input_wf (h : host) (r r' : kron_reader) :
  same_input r r' -> kron_wf h r' = kron_wf h r.
Proof.
  intros S. pose proof S as (A1 & A2 & A3 & A4). unfold kron_wf.
  rewrite A1, A3, A4. f_equal.
  apply forallb_pointwise. intros i. rewrite (same_input_stream_at h r r' _ S).
  reflexivity.
Qed.

Lemma window_read (c buf : list EdgeType) (off size i : nat) :
  (i < length (firstn size (skipn off c)))%nat ->
  exists e, nth_error (buffer_fill buf (firstn size (skipn off c))) i = Some e
            /\ nth_error c (off + i) = Some e.
Proof.
  intros Hi. unfold buffer_fill.
  rewrite nth_error_app1 by exact Hi.
  pose proof Hi as Hi'. rewrite length_firstn in Hi'.
  rewrite nth_error_firstn.
  destruct (Nat.ltb_spec i size) as [_ | ?]; [| lia].
  rewrite nth_error_skipn.
  destruct (nth_error c (off + i)) as [e |] eqn:E.
  - exists e. split; reflexivity.
  - apply nth_error_None in E. rewrite length_skipn in Hi'. lia.
Qed.

Lemma seek_fail (h : host) (n : Z) (r : kron_reader) log :
  _total_edges r <= n -> seek h n r log = (Ok (false, r), log).
Proof.
  intros Hn. unfold seek.
  destruct (Z.leb_spec (_total_edges r) n); [reflexivity | lia].
Qed.

Lemma seek_in_window (h : host) (n : Z) (r : kron_reader) log :
  0 <= _begin r -> 0 <= _len r -> _begin r + _len r < 2 ^ 64 ->
  n < _total_edges r -> _begin r <= n < _begin r + _len r ->
  seek h n r log = (Ok (true, set_cur r (n - _begin r)), log).
Proof.
  intros Hb Hl Hs Ht Hn. unfold seek.
  destruct (Z.leb_spec (_total_edges r) n); [lia |].
  rewrite (wrap64_small (_begin r + _len r)) by lia.
  destruct (Z.leb_spec (_begin r) n); [| lia].
  destruct (Z.ltb_spec n (_begin r + _len r)); [| lia].
  cbn [andb]. rewrite wrap64_small by lia. reflexivity.
Qed.

(** Whatever [seek] does, the reader stays on the same input. *)
Lemma seek_same_input (h : host) (n : Z) (r : kron_reader) log ok r' log' :
  seek h n r log = (Ok (ok, r'), log') -> same_input r r'.
Proof.
  unfold seek.
  destruct (_total_edges r <=? n).
  { intros E; inversion E; subst; apply same_input_refl. }
  destruct ((_begin r <=? n) && (n <? wrap64 (_begin r + _len r))).
  { intros E; inversion E; subst; repeat split. }
  destruct (_edges_per_file r =? 0).
  { intros E; inversion E. }
  unfold bind.
  destruct (seek_open h (n / _edges_per_file r) r log) as [[[f id] | e] log1].
  - unfold fseek, fread, bind, emit, ret. intros E; inversion E; subst.
    repeat split.
  - intros E; inversion E.
Qed.

Lemma seek_open_ok (h : host) (r : kron_reader) (id : Z) (c : list EdgeType) log :
  (forall f, _file r = Some f -> f_path f = filepath r (_cur_file_id r)) ->
  file_content h (filepath r id) = Some c ->
  exists f log1,
    seek_open h id r log = (Ok (f, id), log1)
    /\ f_path f = filepath r id.
Proof.
  intros Hf Hc. unfold seek_open.
  destruct (_file r) as [f |] eqn:Ef.
  - destruct (Z.eqb_spec id (_cur_file_id r)) as [-> | Hne]; cbn [negb].
    + exists f, log. split; [reflexivity |]. apply Hf. reflexivity.
    + unfold bind, fclose, fopen, emit, ret. rewrite Hc.
      eexists. eexists. split; reflexivity.
  - unfold bind, fopen, emit, ret. rewrite Hc.
    eexists. eexists. split; reflexivity.
Qed.

Lemma index_in_file (epf n i : Z) :
  0 < epf -> 0 <= n -> 0 <= i -> n mod epf + i < epf ->
  (n + i) / epf = n / epf /\ (n + i) mod epf = n mod epf + i.
Proof.
  intros He Hn Hi Hlt.
  pose proof (Z.div_mod n epf) as D.
  pose proof (Z.mod_pos_bound n epf He) as Bn.
  assert (E : n + i = epf * (n / epf) + (n mod epf + i)) by lia.
  split.
  - symmetry. apply (Z.div_unique_pos (n + i) epf (n / epf) (n mod epf + i)); lia.
  - symmetry. apply (Z.mod_unique_pos (n + i) epf (n / epf) (n mod epf + i)); lia.
Qed.

(** [seek] to an index of the stream outside the window refills the
    buffer from the file that owns the index. *)
Lemma seek_refill (h : host) (r : kron_reader) (n : Z) log :
  kron_wf h r = true -> kron_inv h r -> 0 <= n < _total_edges r ->
  (_begin r <=? n) && (n <? wrap64 (_begin r + _len r)) = false ->
  exists r' log',
    seek h n r log = (Ok (true, r'), log')
    /\ kron_inv h r' /\ same_input r r'
    /\ position r' = n /\ _cur r' < _len r'.
Proof.
  intros Hwf Hinv Hn Hout.
  destruct (kron_wf_spec h r Hwf) as (Hepf & Hsz & Ht0 & Ht & Hfile & Hstream).
  destruct Hinv as [Hcur Hlen Hbegin Hwin Hf].
  destruct (Hstream n Hn) as [e He].
  destruct (stream_at_file h r n e He) as (c & Hc & Hnth).
  destruct (seek_open_ok h r (n / _edges_per_file r) c log Hf Hc)
    as (f & log1 & Hopen & Hpath).
  unfold seek.
  destruct (Z.leb_spec (_total_edges r) n); [lia |].
  rewrite Hout.
  destruct (Z.eqb_spec (_edges_per_file r) 0); [lia |].
  unfold bind. rewrite Hopen.
  unfold fseek, fread, bind, emit, ret. cbn [f_path f_pos f_eof].
  rewrite Hpath, Hc.
  eexists. eexists. split; [reflexivity |].
  pose proof (Z.mod_pos_bound n (_edges_per_file r) Hepf) as Hoff.
  rewrite wrap64_small by (unfold sizeof_EdgeType in *; lia).
  rewrite Z.div_mul by discriminate.
  set (off := n mod _edges_per_file r) in *.
  set (data := firstn (Z.to_nat BUFFER_SIZE) (skipn (Z.to_nat off) c)).
  assert (Hdata : (0 < length data)%nat /\ Z.of_nat (length data) <= BUFFER_SIZE
                  /\ (length data <= length c - Z.to_nat off)%nat).
  { subst data. rewrite length_firstn, length_skipn.
    assert (Z.to_nat off < length c)%nat.
    { apply nth_error_Some. rewrite Hnth. discriminate. }
    pose proof BUFFER_SIZE_pos. lia. }
  split; [| split; [repeat split | split; [unfold position; cbn; lia | cbn; lia]]].
  constructor; cbn [_cur _len _begin _buffer _file _total_edges _cur_file_id].
  - lia.
  - lia.
  - lia.
  - intros i Hi.
    destruct (window_read c (_buffer r) (Z.to_nat off) (Z.to_nat BUFFER_SIZE)
                (Z.to_nat i)) as (e' & E1 & E2).
    { fold data. lia. }
    exists e'. split; [exact E1 |].
    unfold stream_at, filepath. cbn [_path _edges_per_file].
    specialize (Hfile _ _ Hc).
    destruct (index_in_file (_edges_per_file r) n i) as [Q M]; try lia.
    rewrite Q, M. fold (filepath r (n / _edges_per_file r)). rewrite Hc.
    fold off. rewrite Z2Nat.inj_add by lia. exact E2.
  - intros f' Ef. inversion Ef. reflexivity.
Qed.

(** [seek] to an index of the stream succeeds, keeps the invariant and
    leaves the cursor on that index, inside the window. *)
Lemma seek_ok (h : host) (r : kron_reader) (n : Z) log :
  kron_wf h r = true -> kron_inv h r -> 0 <= n < _total_edges r ->
  exists r' log',
    seek h n r log = (Ok (true, r'), log')
    /\ kron_inv h r' /\ same_input r r'
    /\ position r' = n /\ _cur r' < _len r'.
Proof.
  intros Hwf Hinv Hn.
  destruct ((_begin r <=? n) && (n <? wrap64 (_begin r + _len r))) eqn:Hin.
  - destruct (kron_wf_spec h r Hwf) as (Hepf & Hsz & Ht0 & Ht & Hfile & Hstream).
    destruct Hinv as [Hcur Hlen Hbegin Hwin Hf].
    rewrite wrap64_small in Hin by lia.
    apply andb_prop in Hin. destruct Hin as [Hlo Hhi].
    apply Z.leb_le in Hlo. apply Z.ltb_lt in Hhi.
    exists (set_cur r (n - _begin r)), log.
    split; [apply seek_in_window; lia |].
    split; [| split; [repeat split | split; [unfold position; cbn; lia | cbn; lia]]].
    constructor; cbn; try assumption; lia.
  - apply seek_refill; assumption.
Qed.

(** [next] below the end of the stream hands out the record under the
    cursor, as [(second, first)], and moves one record on. *)
Lemma next_ok (h : host) (r : kron_reader) log :
  kron_wf h r = true -> kron_inv h r -> position r < _total_edges r ->
  exists e r' log',
    stream_at h r (position r) = Some e
    /\ next h r log = (Ok (Some (emitted e), r'), log')
    /\ kron_inv h r' /\ same_input r r'
    /\ position r' = position r + 1.
Proof.
  intros Hwf Hinv Hpos.
  destruct (kron_wf_spec h r Hwf) as (Hepf & Hsz & Ht0 & Ht & Hfile & Hstream).
  assert (Hemit : forall r1 log1,
             kron_inv h r1 -> same_input r r1 -> _cur r1 < _len r1 ->
             position r1 = position r ->
             exists e r' log',
               stream_at h r (position r) = Some e
               /\ next_emit r1 log1 = (Ok (Some (emitted e), r'), log')
               /\ kron_inv h r' /\ same_input r r'
               /\ position r' = position r + 1).
  { intros r1 log1 [Hcur Hlen Hbegin Hwin Hf] Hs Hlt Hp.
    destruct (Hwin (_cur r1)) as (e & E1 & E2); [lia |].
    rewrite (same_input_stream_at h r r1 _ Hs) in E2.
    fold (position r1) in E2. rewrite Hp in E2.
    exists e, (set_cur r1 (wrap64 (_cur r1 + 1))), log1.
    split; [exact E2 |].
    unfold next_emit.
    destruct (Z.ltb_spec (_cur r1) BUFFER_SIZE); [| lia].
    unfold buffer_get. rewrite (nth_error_nth _ _ _ E1).
    split; [reflexivity |].
    rewrite wrap64_small by (pose proof BUFFER_SIZE_pos; lia).
    split; [| split].
    - constructor; cbn; try assumption; lia.
    - destruct Hs as (A1 & A2 & A3 & A4). repeat split; cbn; assumption.
    - unfold position in *. cbn. lia. }
  pose proof Hinv as [Hcur Hlen Hbegin Hwin Hf].
  unfold next.
  destruct (Z.eqb_spec (_cur r) (_len r)) as [Heq | Hne].
  - rewrite wrap64_small by lia.
    destruct (seek_ok h r (_begin r + _len r) log Hwf Hinv) as
      (r1 & log1 & Hseek & Hinv1 & Hs1 & Hp1 & Hlt1).
    { unfold position in Hpos. lia. }
    unfold bind. rewrite Hseek. cbn [negb].
    apply Hemit; try assumption. unfold position in *. lia.
  - apply Hemit; try assumption; [apply same_input_refl | lia | reflexivity].
Qed.

(** On a well-formed input [seek] and [next] never end fatally, and they
    keep the invariant: it holds in every state a reader goes through. *)
Lemma seek_preserves (h : host) (r : kron_reader) (n : Z) log :
  kron_wf h r = true -> kron_inv h r -> 0 <= n ->
  exists ok r' log',
    seek h n r log = (Ok (ok, r'), log') /\ kron_inv h r' /\ same_input r r'.
Proof.
  intros Hwf Hinv Hn.
  destruct (Z_lt_dec n (_total_edges r)) as [Hlt | Hge].
  - destruct (seek_ok h r n log Hwf Hinv) as (r' & log' & Hs & Hi & Hsame & _);
      [lia |].
    exists true, r', log'. split; [exact Hs |]. split; assumption.
  - exists false, r, log. split; [apply seek_fail; lia |].
    split; [assumption | apply same_input_refl].
Qed.

Lemma next_preserves (h : host) (r : kron_reader) log :
  kron_wf h r = true -> kron_inv h r ->
  exists o r' log',
    next h r log = (Ok (o, r'), log') /\ kron_inv h r' /\ same_input r r'.
Proof.
  intros Hwf Hinv.
  destruct (Z_lt_dec (position r) (_total_edges r)) as [Hlt | Hge].
  - destruct (next_ok h r log Hwf Hinv Hlt) as (e & r' & log' & _ & Hn & Hi & Hs & _).
    exists (Some (emitted e)), r', log'. split; [exact Hn |]. split; assumption.
  - destruct (kron_wf_spec h r Hwf) as (_ & _ & _ & Ht & _ & _).
    pose proof Hinv as [Hcur Hlen Hbegin Hwin Hf].
    pose proof BUFFER_SIZE_pos as HB.
    unfold next.
    destruct (Z.eqb_spec (_cur r) (_len r)) as [Heq | Hne].
    + rewrite wrap64_small by lia. unfold bind.
      rewrite seek_fail by (unfold position in Hge; lia). cbn [negb].
      exists None, r, log. split; [reflexivity |].
      split; [assumption | apply same_input_refl].
    + unfold next_emit.
      destruct (Z.ltb_spec (_cur r) BUFFER_SIZE); [| lia].
      eexists. eexists. eexists. split; [reflexivity |].
      rewrite wrap64_small by lia.
      split; [| repeat split].
      constructor; cbn; try assumption; lia.
Qed.

(** The constructor establishes the invariant, with the cursor on index 0. *)
Lemma kron_reader_new_inv (h : host) (path : string) log r log' :
  kron_reader_new h path log = (Ok r, log') ->
  kron_inv h r /\ position r = 0 /\ _path r = path.
Proof.
  unfold kron_reader_new, file_size, bind, ret, abort, emit.
  destruct (host_regex h path) as [[n m] |]; [| discriminate].
  destruct ((2 ^ 64 <=? n) || (2 ^ 64 <=? m)); [discriminate |].
  destruct (64 <=? n); [discriminate |].
  destruct (file_content h (path, filename 0)); [| discriminate].
  intros E. inversion E; subst. clear E.
  split; [| split; reflexivity].
  constructor; cbn.
  - lia.
  - pose proof BUFFER_SIZE_pos. lia.
  - split; [lia |]. unfold wrap64. apply Z.mod_pos_bound. reflexivity.
  - intros i Hi. lia.
  - discriminate.
Qed.

Lemma records_S (h : host) (r : kron_reader) (b : Z) (k : nat) :
  records h r b (S k) = record_at h r b :: records h r (b + 1) k.
Proof.
  unfold records. cbn [seq map]. rewrite Z.add_0_r. f_equal.
  rewrite <- seq_shift, map_map. apply map_ext. intros i.
  f_equal. lia.
Qed.

Lemma records_same_input (h : host) (r r' : kron_reader) (b : Z) (k : nat) :
  same_input r r' -> records h r' b k = records h r b k.
Proof.
  intros S. unfold records. apply map_ext. intros i. unfold record_at.
  rewrite (same_input_stream_at h r r' _ S). reflexivity.
Qed.

(** [n] calls of [next] that stay below the end of the stream hand out the
    next [n] records. *)
Lemma nexts_ok (h : host) (n : nat) (r : kron_reader) log :
  kron_wf h r = true -> kron_inv h r ->
  position r + Z.of_nat n <= _total_edges r ->
  exists r' log',
    nexts h n r log = (Ok (map Some (records h r (position r) n), r'), log')
    /\ kron_inv h r' /\ same_input r r'
    /\ position r' = position r + Z.of_nat n.
Proof.
  revert r log. induction n as [| n IH]; intros r log Hwf Hinv Hpos.
  - exists r, log. cbn. split; [reflexivity |].
    split; [assumption | split; [apply same_input_refl | lia]].
  - destruct (next_ok h r log Hwf Hinv) as (e & r1 & log1 & He & Hn & Hi1 & Hs1 & Hp1);
      [lia |].
    destruct (IH r1 log1) as (r2 & log2 & Hns & Hi2 & Hs2 & Hp2);
      [rewrite (same_input_wf h r r1 Hs1); exact Hwf | exact Hi1 | |].
    { destruct Hs1 as (_ & _ & A3 & _). rewrite A3. lia. }
    exists r2, log2.
    cbn [nexts]. unfold bind. rewrite Hn, Hns. unfold ret.
    rewrite records_S. cbn [map]. unfold record_at at 1. rewrite He.
    rewrite (records_same_input h r r1 _ _ Hs1), Hp1.
    split; [reflexivity |].
    split; [assumption |].
    split; [eapply same_input_trans; eassumption | lia].
Qed.

End Reader.

(** * The adapter: [next_edge], [rewind], [stat] *)

Section Adapter.
Import Kron KronInv.

Lemma next_edge_done (h : host) (l : bin_loader) (r : kron_reader) log :
  _loaded_edges l = _needed_edges l ->
  next_edge h l r log = (Ok (None, l, r), log).
Proof.
  intros E. unfold next_edge. rewrite E, Z.eqb_refl. reflexivity.
Qed.

Lemma next_edges_done (h : host) (m : nat) (l : bin_loader) (r : kron_reader) log :
  _loaded_edges l = _needed_edges l ->
  next_edges h m l r log = (Ok (repeat None m, l, r), log).
Proof.
  intros E. induction m as [| m IH]; [reflexivity |].
  cbn [next_edges repeat]. unfold bind.
  rewrite (next_edge_done h l r log E), IH. reflexivity.
Qed.

(** [n] calls of [next_edge] within the partition and within the stream
    hand out the next [n] records and count them. *)
Lemma next_edges_ok (h : host) (n : nat) (l : bin_loader) (r : kron_reader) log :
  kron_wf h r = true -> kron_inv h r ->
  0 <= _loaded_edges l -> _loaded_edges l + Z.of_nat n <= _needed_edges l ->
  _needed_edges l < 2 ^ 64 ->
  position r + Z.of_nat n <= _total_edges r ->
  exists r' log',
    next_edges h n l r log
    = (Ok (map Some (records h r (position r) n),
           {| _begin_edge := _begin_edge l; _needed_edges := _needed_edges l;
              _loaded_edges := _loaded_edges l + Z.of_nat n |}, r'), log')
    /\ kron_inv h r' /\ same_input r r'
    /\ position r' = position r + Z.of_nat n.
Proof.
  revert l r log. induction n as [| n IH]; intros l r log Hwf Hinv Hl0 Hl Hneed Hpos.
  - exists r, log. cbn. rewrite Z.add_0_r. destruct l; cbn.
    split; [reflexivity |].
    split; [assumption | split; [apply same_input_refl | lia]].
  - destruct (next_ok h r log Hwf Hinv) as (e & r1 & log1 & He & Hn & Hi1 & Hs1 & Hp1);
      [lia |].
    set (l1 := {| _begin_edge := _begin_edge l; _needed_edges := _needed_edges l;
                  _loaded_edges := _loaded_edges l + 1 |}).
    destruct (IH l1 r1 log1) as (r2 & log2 & Hns & Hi2 & Hs2 & Hp2);
      [rewrite (same_input_wf h r r1 Hs1); exact Hwf | exact Hi1
      | cbn; lia | cbn; lia | cbn; lia | |].
    { destruct Hs1 as (_ & _ & A3 & _). rewrite A3. lia. }
    exists r2, log2.
    cbn [next_edges]. unfold bind at 1. unfold next_edge.
    destruct (Z.eqb_spec (_loaded_edges l) (_needed_edges l)); [lia |].
    unfold bind at 1. rewrite Hn. unfold ret at 1.
    rewrite wrap64_small by lia. fold l1.
    unfold bind. rewrite Hns. unfold ret.
    rewrite records_S. cbn [map]. unfold record_at at 1. rewrite He.
    rewrite (records_same_input h r r1 _ _ Hs1), Hp1.
    split.
    { replace (_loaded_edges l + Z.of_nat (S n))
        with (_loaded_edges l1 + Z.of_nat n) by (cbn [_loaded_edges l1]; lia).
      reflexivity. }
    split; [assumption |].
    split; [eapply same_input_trans; eassumption | lia].
Qed.

(** [rewind] puts the counter back to 0 and, when the partition starts
    inside the stream, the reader on its first index. *)
Lemma rewind_ok (h : host) (l : bin_loader) (r : kron_reader) log :
  kron_wf h r = true -> kron_inv h r -> 0 <= _begin_edge l ->
  exists r' log',
    rewind h l r log
    = (Ok ({| _begin_edge := _begin_edge l; _needed_edges := _needed_edges l;
              _loaded_edges := 0 |}, r'), log')
    /\ kron_inv h r' /\ same_input r r'
    /\ (_begin_edge l < _total_edges r -> position r' = _begin_edge l).
Proof.
  intros Hwf Hinv Hb. unfold rewind, bind.
  destruct (Z_lt_dec (_begin_edge l) (_total_edges r)) as [Hlt | Hge].
  - destruct (seek_ok h r (_begin_edge l) log Hwf Hinv) as
      (r1 & log1 & Hseek & Hi1 & Hs1 & Hp1 & _); [lia |].
    rewrite Hseek. exists r1, log1.
    split; [reflexivity |]. split; [assumption |]. split; [assumption |].
    intros _. exact Hp1.
  - rewrite seek_fail by lia. exists r, log.
    split; [reflexivity |]. split; [assumption |].
    split; [apply same_input_refl | lia].
Qed.

Lemma kron_fresh_new :
  kron_reader_new kron_host "data/Kron2-2" []
  = (Ok kron_fresh, [EvFileSize ("data/Kron2-2", "block-00.bin")]).
Proof. vm_compute. reflexivity. Qed.

Lemma kron_fresh_inv : kron_inv kron_host kron_fresh.
Proof. exact (proj1 (kron_reader_new_inv _ _ _ _ _ kron_fresh_new)). Qed.

(** C2.  An adapter built with [needed_edges = k] on a reader whose stream
    extends beyond [begin_edge + k] answers its first [k] calls of
    [next_edge] with the [k] on-disk records from index [begin_edge] on,
    and every later call with the exhaustion signal, although the reader
    itself would still hand out a record. *)
Theorem adapter_yields_needed (h : host) (r : kron_reader) (k b : Z) log :
  kron_wf h r = true -> kron_inv h r ->
  0 <= b -> 0 <= k -> b + k < _total_edges r ->
  (forall i, 0 <= i < k ->
     exists e, stream_at h r (b + i) = Some e
               /\ record_at h r (b + i) = (snd e, fst e))
  /\ exists l0 r0 log0,
      bin_loader_new h r k b log = (Ok (l0, r0), log0)
      /\ exists l1 r1 log1,
           next_edges h (Z.to_nat k) l0 r0 log0
           = (Ok (map Some (records h r b (Z.to_nat k)), l1, r1), log1)
           /\ (forall m log', next_edges h m l1 r1 log'
                              = (Ok (repeat None m, l1, r1), log'))
           /\ (exists e r2 log2, next h r1 log1 = (Ok (Some e, r2), log2)).
Proof.
  intros Hwf Hinv Hb Hk Hlt.
  destruct (kron_wf_spec h r Hwf) as (_ & _ & _ & Ht & _ & Hstream).
  pose proof BUFFER_SIZE_pos as HB.
  split.
  { intros i Hi. destruct (Hstream (b + i)) as [e He]; [lia |].
    exists e. split; [exact He |]. unfold record_at. rewrite He. reflexivity. }
  set (l := {| _begin_edge := b; _needed_edges := k; _loaded_edges := 0 |}).
  destruct (rewind_ok h l r log Hwf Hinv Hb) as (r0 & log0 & Hrw & Hi0 & Hs0 & Hp0).
  specialize (Hp0 ltac:(cbn; lia)). cbn [_begin_edge l] in Hp0.
  pose proof Hs0 as (_ & _ & Htot & _).
  assert (Hwf0 : kron_wf h r0 = true) by (rewrite (same_input_wf h r r0 Hs0); exact Hwf).
  destruct (next_edges_ok h (Z.to_nat k) l r0 log0 Hwf0 Hi0) as
    (r1 & log1 & Hne & Hi1 & Hs1 & Hp1); cbn [_loaded_edges _needed_edges l]; try lia.
  exists l, r0, log0. split; [exact Hrw |].
  eexists. exists r1, log1.
  rewrite Hp0, (records_same_input h r r0 _ _ Hs0) in Hne.
  split; [exact Hne |]. split.
  - intros m log'. apply next_edges_done. cbn. lia.
  - assert (Hwf1 : kron_wf h r1 = true)
      by (rewrite (same_input_wf h r0 r1 Hs1); exact Hwf0).
    destruct (next_ok h r1 log1 Hwf1 Hi1) as (e & r2 & log2 & _ & Hn & _).
    { destruct Hs1 as (_ & _ & A3 & _). rewrite A3. lia. }
    exists (emitted e), r2, log2. exact Hn.
Qed.

Lemma adapter_yields_needed_witness :
  exists l0 r0 log0,
    bin_loader_new kron_host kron_fresh 3 2 [] = (Ok (l0, r0), log0)
    /\ exists l1 r1 log1,
         next_edges kron_host 3 l0 r0 log0
         = (Ok ([Some (15, 14); Some (17, 16); Some (19, 18)], l1, r1), log1)
         /\ next_edges kron_host 2 l1 r1 log1 = (Ok ([None; None], l1, r1), log1).
Proof.
  destruct (adapter_yields_needed kron_host kron_fresh 3 2 [])
    as (_ & l0 & r0 & log0 & Hnew & l1 & r1 & log1 & Hrun & Hdone & _);
    [vm_compute; reflexivity | exact kron_fresh_inv | lia | lia | cbn; lia |].
  exists l0, r0, log0. split; [exact Hnew |].
  exists l1, r1, log1. split; [exact Hrun | exact (Hdone 2%nat log1)].
Defined.

Lemma records_nth (h : host) (r : kron_reader) (b : Z) (k i : nat) :
  (i < k)%nat ->
  nth_error (map Some (records h r b k)) i = Some (Some (record_at h r (b + Z.of_nat i))).
Proof.
  intros Hi. unfold records. rewrite map_map, nth_error_map, nth_error_seq.
  destruct (Nat.ltb_spec i k); [reflexivity | lia].
Qed.

(** C4.  On a well-formed input, [seek n] with [n < total_edges] followed
    by one [next] hands out the record that [n + 1] calls of [next] on the
    freshly opened reader hand out last; [seek n] with [n >= total_edges]
    returns [false] and changes nothing. *)
Theorem seek_matches_iteration (h : host) (path : string) log0 r0 log0' :
  kron_reader_new h path log0 = (Ok r0, log0') ->
  kron_wf h r0 = true ->
  forall n r log, 0 <= n -> same_input r0 r ->
    (n < total_edges r0 -> kron_inv h r ->
       exists e r1 log1 r2 log2 os r3 log3,
         seek h n r log = (Ok (true, r1), log1)
         /\ next h r1 log1 = (Ok (Some e, r2), log2)
         /\ nexts h (S (Z.to_nat n)) r0 log0' = (Ok (os, r3), log3)
         /\ nth_error os (Z.to_nat n) = Some (Some e))
    /\ (total_edges r0 <= n -> seek h n r log = (Ok (false, r), log)).
Proof.
  intros Hnew Hwf0 n r log Hn Hs. unfold total_edges.
  pose proof Hs as (_ & _ & Htot & _). split.
  - intros Hlt Hinv.
    assert (Hwf : kron_wf h r = true) by (rewrite (same_input_wf h r0 r Hs); exact Hwf0).
    destruct (seek_ok h r n log Hwf Hinv) as (r1 & log1 & Hseek & Hi1 & Hs1 & Hp1 & _);
      [lia |].
    assert (Hwf1 : kron_wf h r1 = true) by (rewrite (same_input_wf h r r1 Hs1); exact Hwf).
    destruct (next_ok h r1 log1 Hwf1 Hi1) as (e & r2 & log2 & He & Hnext & _).
    { destruct Hs1 as (_ & _ & A3 & _). lia. }
    destruct (kron_reader_new_inv h path log0 r0 log0' Hnew) as (Hi0 & Hp0 & _).
    destruct (nexts_ok h (S (Z.to_nat n)) r0 log0' Hwf0 Hi0) as (r3 & log3 & Hns & _);
      [lia |].
    exists (emitted e), r1, log1, r2, log2.
    eexists. exists r3, log3.
    split; [exact Hseek |]. split; [exact Hnext |]. split; [exact Hns |].
    rewrite records_nth by lia. rewrite Hp0, Z.add_0_l, Z2Nat.id by lia.
    unfold record_at.
    rewrite Hp1, (same_input_stream_at h r r1 _ Hs1),
      (same_input_stream_at h r0 r _ Hs) in He.
    rewrite He. reflexivity.
  - intros Hge. apply seek_fail. lia.
Qed.

Lemma seek_matches_iteration_witness :
  exists r1 log1 r2 log2 os r3 log3,
    seek kron_host 5 kron_fresh [] = (Ok (true, r1), log1)
    /\ next kron_host r1 log1 = (Ok (Some (21, 20), r2), log2)
    /\ nexts kron_host 6 kron_fresh [EvFileSize ("data/Kron2-2", "block-00.bin")]
        = (Ok (os, r3), log3)
    /\ nth_error os 5 = Some (Some (21, 20))
    /\ seek kron_host 8 kron_fresh [] = (Ok (false, kron_fresh), []).
Proof.
  destruct (seek_matches_iteration kron_host "data/Kron2-2" [] kron_fresh _
              kron_fresh_new ltac:(vm_compute; reflexivity)
              5 kron_fresh [] ltac:(lia) (same_input_refl _)) as [H _].
  destruct (H ltac:(cbn; lia) kron_fresh_inv)
    as (e & r1 & log1 & r2 & log2 & os & r3 & log3 & Hseek & Hnext & Hns & Hnth).
  destruct (seek_matches_iteration kron_host "data/Kron2-2" [] kron_fresh _
              kron_fresh_new ltac:(vm_compute; reflexivity)
              8 kron_fresh [] ltac:(lia) (same_input_refl _)) as [_ H8].
  assert (He : e = (21, 20)).
  { vm_compute in Hseek. inversion Hseek; subst r1 log1.
    vm_compute in Hnext. inversion Hnext. reflexivity. }
  subst e.
  exists r1, log1, r2, log2, os, r3, log3.
  split; [exact Hseek |]. split; [exact Hnext |]. split; [exact Hns |].
  split; [exact Hnth |]. apply H8. cbn. lia.
Defined.

(** One pass of an adapter: [rewind], then [needed_edges] calls of
    [next_edge].  Whatever the state before, it hands out the records of
    the partition. *)
Lemma pass_ok (h : host) (l : bin_loader) (r : kron_reader) log :
  kron_wf h r = true -> kron_inv h r ->
  0 <= _begin_edge l -> 0 <= _needed_edges l < 2 ^ 64 ->
  _begin_edge l + _needed_edges l <= _total_edges r ->
  exists l1 r1 log1 l2 r2 log2,
    rewind h l r log = (Ok (l1, r1), log1)
    /\ next_edges h (Z.to_nat (_needed_edges l1)) l1 r1 log1
        = (Ok (map Some (records h r (_begin_edge l) (Z.to_nat (_needed_edges l))),
               l2, r2), log2)
    /\ kron_inv h r2 /\ same_input r r2
    /\ _begin_edge l2 = _begin_edge l /\ _needed_edges l2 = _needed_edges l.
Proof.
  intros Hwf Hinv Hb Hk Hle.
  destruct (rewind_ok h l r log Hwf Hinv Hb) as (r1 & log1 & Hrw & Hi1 & Hs1 & Hp1).
  set (l1 := {| _begin_edge := _begin_edge l; _needed_edges := _needed_edges l;
                _loaded_edges := 0 |}) in *.
  assert (Hwf1 : kron_wf h r1 = true) by (rewrite (same_input_wf h r r1 Hs1); exact Hwf).
  pose proof Hs1 as (_ & _ & Htot & _).
  exists l1, r1, log1.
  destruct (Z.eq_dec (_needed_edges l) 0) as [Hz | Hnz].
  - exists l1, r1, log1. cbn [_needed_edges l1]. rewrite Hz.
    split; [exact Hrw |]. split; [reflexivity |]. split; [exact Hi1 |].
    split; [exact Hs1 |]. split; reflexivity.
  - specialize (Hp1 ltac:(lia)).
    destruct (next_edges_ok h (Z.to_nat (_needed_edges l)) l1 r1 log1 Hwf1 Hi1)
      as (r2 & log2 & Hne & Hi2 & Hs2 & _); cbn [_loaded_edges _needed_edges l1];
      try lia.
    rewrite Hp1, (records_same_input h r r1 _ _ Hs1) in Hne.
    eexists. exists r2, log2.
    split; [exact Hrw |]. split; [exact Hne |]. split; [exact Hi2 |].
    split; [eapply same_input_trans; eassumption |]. split; reflexivity.
Qed.

(** Restartability of the synthetic-format adapter: on a well-formed input,
    the first pass of an adapter whose partition lies within the stream
    hands out the records of the partition, and so does every later round
    of [rewind] and [needed_edges] calls of [next_edge]. *)
Theorem kron_rewind_replays (h : host) (r : kron_reader) (k b : Z) log :
  kron_wf h r = true -> kron_inv h r ->
  0 <= b -> 0 <= k < 2 ^ 64 -> b + k <= _total_edges r ->
  exists l0 r0 log0 first l1 r1 log1,
    bin_loader_new h r k b log = (Ok (l0, r0), log0)
    /\ next_edges h (Z.to_nat k) l0 r0 log0 = (Ok (first, l1, r1), log1)
    /\ first = map Some (records h r b (Z.to_nat k))
    /\ forall i, exists l2 r2 log2,
         replays h i l1 r1 log1 = (Ok (repeat first i, l2, r2), log2).
Proof.
  intros Hwf Hinv Hb Hk Hle.
  set (l := {| _begin_edge := b; _needed_edges := k; _loaded_edges := 0 |}).
  destruct (pass_ok h l r log Hwf Hinv Hb Hk Hle)
    as (l0 & r0 & log0 & l1 & r1 & log1 & Hrw & Hne & Hi1 & Hs1 & Hb1 & Hk1).
  assert (Hk0 : _needed_edges l0 = k).
  { unfold rewind, bind in Hrw.
    destruct (seek h (_begin_edge l) r log) as [[[ok r'] | e] log'];
      inversion Hrw; reflexivity. }
  rewrite Hk0 in Hne. cbn [_begin_edge _needed_edges l] in *.
  exists l0, r0, log0. eexists. exists l1, r1, log1.
  split; [exact Hrw |]. split; [exact Hne |]. split; [reflexivity |].
  intros i. clear Hrw Hne Hk0 l0 r0 log0.
  revert l1 r1 log1 Hi1 Hs1 Hb1 Hk1.
  induction i as [| i IH]; intros l1 r1 log1 Hi1 Hs1 Hb1 Hk1.
  - exists l1, r1, log1. reflexivity.
  - assert (Hwf1 : kron_wf h r1 = true)
      by (rewrite (same_input_wf h r r1 Hs1); exact Hwf).
    pose proof Hs1 as (_ & _ & Htot & _).
    destruct (pass_ok h l1 r1 log1 Hwf1 Hi1)
      as (l2 & r2 & log2 & l3 & r3 & log3 & Hrw & Hne & Hi3 & Hs3 & Hb3 & Hk3);
      try lia.
    destruct (IH l3 r3 log3 Hi3) as (l4 & r4 & log4 & Hrep);
      [eapply same_input_trans; eassumption | congruence | congruence |].
    exists l4, r4, log4.
    cbn [replays repeat]. unfold bind. rewrite Hrw, Hne, Hrep. unfold ret.
    rewrite Hb1, Hk1, (records_same_input h r r1 _ _ Hs1). reflexivity.
Qed.

Lemma kron_rewind_replays_witness :
  exists l0 r0 log0 l1 r1 log1 l2 r2 log2,
    bin_loader_new kron_host kron_fresh 4 4 [] = (Ok (l0, r0), log0)
    /\ next_edges kron_host 4 l0 r0 log0
        = (Ok ([Some (19, 18); Some (21, 20); Some (23, 22); Some (25, 24)], l1, r1), log1)
    /\ replays kron_host 2 l1 r1 log1
        = (Ok ([[Some (19, 18); Some (21, 20); Some (23, 22); Some (25, 24)];
                [Some (19, 18); Some (21, 20); Some (23, 22); Some (25, 24)]],
               l2, r2), log2).
Proof.
  destruct (kron_rewind_replays kron_host kron_fresh 4 4 [])
    as (l0 & r0 & log0 & first & l1 & r1 & log1 & Hnew & Hrun & Hfirst & Hrep);
    [vm_compute; reflexivity | exact kron_fresh_inv | lia | lia | cbn; lia |].
  destruct (Hrep 2%nat) as (l2 & r2 & log2 & H2).
  subst first.
  exists l0, r0, log0, l1, r1, log1, l2, r2, log2.
  split; [exact Hnew |]. split; [exact Hrun | exact H2].
Defined.

End Adapter.

(** * Frame of [seek], [stat] and the data source *)

Section Frames.
Import Kron KronInv.

(** C9, as the code has it.  For a reader state whose window
    [[_begin, _begin + _len)] is a range of 64-bit indices, [seek n] with
    [n] in the window and [n < _total_edges] succeeds, sets the cursor to
    [n - _begin] and changes nothing else: buffer, first index, length,
    open stream (file and byte offset) and file id are the same, and the
    trace of file-system calls is the same. *)
Theorem seek_window_frame (h : host) (r : kron_reader) (n : Z) log :
  0 <= _begin r -> 0 <= _len r -> _begin r + _len r < 2 ^ 64 ->
  n < _total_edges r ->
  _begin r <= n < _begin r + _len r ->
  exists r',
    seek h n r log = (Ok (true, r'), log)
    /\ _cur r' = n - _begin r
    /\ _buffer r' = _buffer r /\ _begin r' = _begin r /\ _len r' = _len r
    /\ _file r' = _file r /\ _cur_file_id r' = _cur_file_id r
    /\ same_input r r'.
Proof.
  intros Hb Hl Hs Ht Hn.
  exists (set_cur r (n - _begin r)).
  split; [apply seek_in_window; assumption |].
  repeat split.
Qed.

Lemma seek_window_frame_witness :
  exists r log r',
    bind (seek kron_host 0 kron_fresh) (fun x => ret (snd x)) [] = (Ok r, log)
    /\ seek kron_host 2 r log = (Ok (true, r'), log)
    /\ _cur r' = 2 /\ _buffer r' = _buffer r /\ _file r' = _file r.
Proof.
  eexists. eexists.
  match goal with
  | |- exists r', ?run = (Ok ?r, ?log) /\ _ =>
      assert (Hrun : run = (Ok r, log)) by (vm_compute; reflexivity)
  end.
  match type of Hrun with
  | _ = (Ok ?r, ?log) =>
      destruct (seek_window_frame kron_host r 2 log)
        as (r' & Hseek & Hcur & Hbuf & _ & _ & Hfile & _);
        [cbn; lia | cbn; lia | cbn; lia | cbn; lia | cbn; lia |];
        exists r'
  end.
  split; [exact Hrun |]. split; [exact Hseek |].
  split; [exact Hcur |]. split; [exact Hbuf | exact Hfile].
Defined.

(** C9 as stated fails: the reader of [long_host] has 2 edges by its name
    and 3 records in its window after [seek 0]; index 2 lies in the window
    and [seek 2] returns [false]. *)
Lemma seek_window_fails_beyond_total :
  exists r log,
    bind (kron_reader_new long_host "Kron1-1")
      (fun r0 => bind (seek long_host 0 r0) (fun x => ret (snd x))) []
    = (Ok r, log)
    /\ _begin r <= 2 < _begin r + _len r
    /\ seek long_host 2 r log = (Ok (false, r), log).
Proof.
  eexists. eexists.
  split; [vm_compute; reflexivity |].
  split; [cbn; lia | vm_compute; reflexivity].
Qed.

(** C8.  [stat] of the synthetic-format adapter returns [true] with
    [(total_nodes, needed_edges)] and leaves adapter, reader and trace as
    they were, so the calls of [next_edge] that follow are answered as if
    [stat] had not been called; [stat] of the plain-format adapter returns
    [false]. *)
Theorem stat_reports :
  (forall l r log,
     Kron.stat l r log = (Ok (Some (total_nodes r, _needed_edges l), l, r), log))
  /\ (forall h n l r log,
        bind (Kron.stat l r) (fun x => next_edges h n (snd (fst x)) (snd x)) log
        = next_edges h n l r log)
  /\ (forall l log, Plain.stat l log = (Ok (None, l), log)).
Proof.
  split; [| split]; reflexivity.
Qed.

(** C10.  For every path, the adapter [create_data_source] returns covers
    the whole stream of that path.  The call runs [init] on the path with a
    null configuration; [init] takes the reader of the path, which is the
    cached reader when the front end holds one for the same path and
    otherwise the reader the constructor builds from the path on this host,
    whose [total_edges] is the number the path names; the planner returns
    [(total_edges, 0)]; and the adapter is built over that reader with
    [begin_edge = 0], [needed_edges = total_edges] and nothing loaded.  The
    front end keeps the path and the reader the adapter points to, which
    stands for the same input.  [create_data_source] has no configuration
    argument, so no shard setting can reach the planner. *)
Theorem create_data_source_full (h : host) (st : ll_loader_bin) (file : string) log l st' log' :
  create_data_source h st file log = (Ok (l, st'), log') ->
  exists r log1 ok r',
    init_reader h st file log = (Ok r, log1)
    /\ init h st file None log = (Ok (total_edges r, 0, r), log1)
    /\ seek h 0 r log1 = (Ok (ok, r'), log')
    /\ l = {| _begin_edge := 0; _needed_edges := total_edges r; _loaded_edges := 0 |}
    /\ st' = {| loader_reader := Some r'; loader_path := file |}
    /\ same_input r r'
    /\ _needed_edges l = total_edges r'
    /\ plan (total_edges r') None = Ok (_needed_edges l, _begin_edge l)
    /\ (forall r0, loader_reader st = Some r0 -> loader_path st = file ->
        r = r0 /\ log1 = log)
    /\ (loader_reader st = None \/ loader_path st <> file ->
        kron_reader_new h file log = (Ok r, log1)
        /\ _path r = file
        /\ exists n m,
             host_regex h file = Some (n, m)
             /\ total_edges r = wrap64 (wrap64 (Z.shiftl 1 n) * m)).
Proof.
  intros Hrun.
  assert (Hnew : forall r log1,
             kron_reader_new h file log = (Ok r, log1) ->
             _path r = file
             /\ exists n m,
                  host_regex h file = Some (n, m)
                  /\ total_edges r = wrap64 (wrap64 (Z.shiftl 1 n) * m)).
  { intros r log1. unfold kron_reader_new, file_size, bind, emit, ret, abort.
    destruct (host_regex h file) as [[n m] |]; [| discriminate].
    destruct ((2 ^ 64 <=? n) || (2 ^ 64 <=? m)); [discriminate |].
    destruct (64 <=? n); [discriminate |].
    destruct (file_content h (file, filename 0)); [| discriminate].
    intros E. inversion E; subst. split; [reflexivity |].
    exists n, m. split; reflexivity. }
  unfold create_data_source, init, bin_loader_new, rewind, bind, lift, ret in Hrun.
  unfold init, bind, lift, ret.
  destruct (init_reader h st file log) as [[r | e] log1] eqn:Hinit; [| discriminate].
  cbn [plan total_edges _begin_edge _needed_edges] in Hrun.
  destruct (seek h 0 r log1) as [[[ok r1] | e] log2] eqn:Hseek; [| discriminate].
  inversion Hrun; subst. clear Hrun.
  pose proof (seek_same_input _ _ _ _ _ _ _ Hseek) as Hs.
  assert (Htot : total_edges r1 = total_edges r).
  { unfold total_edges. exact (proj1 (proj2 (proj2 Hs))). }
  exists r, log1, ok, r1.
  split; [reflexivity |]. split; [reflexivity |]. split; [exact Hseek |].
  split; [reflexivity |]. split; [reflexivity |]. split; [exact Hs |].
  split; [cbn [_needed_edges]; symmetry; exact Htot |].
  split; [cbn [_needed_edges _begin_edge plan]; rewrite Htot; reflexivity |].
  unfold init_reader in Hinit. split.
  - intros r0 Er Ep. rewrite Er, Ep, String.eqb_refl in Hinit.
    unfold ret in Hinit. inversion Hinit; subst. split; reflexivity.
  - intros Hfresh.
    assert (E : kron_reader_new h file log = (Ok r, log1)).
    { destruct (loader_reader st) as [r0 |]; [| exact Hinit].
      destruct Hfresh as [Hnone | Hpath]; [discriminate |].
      destruct (String.eqb_spec (loader_path st) file) as [Ep | _];
        [destruct (Hpath Ep) | exact Hinit]. }
    split; [exact E | exact (Hnew r log1 E)].
Qed.

Lemma create_data_source_full_witness :
  exists l st' log' r r',
    create_data_source kron_host ll_loader_bin_new "data/Kron2-2" [] = (Ok (l, st'), log')
    /\ kron_reader_new kron_host "data/Kron2-2" [] = (Ok r, [EvFileSize ("data/Kron2-2", "block-00.bin")])
    /\ total_edges r = 8 /\ _path r = "data/Kron2-2"
    /\ l = {| _begin_edge := 0; _needed_edges := 8; _loaded_edges := 0 |}
    /\ st' = {| loader_reader := Some r'; loader_path := "data/Kron2-2" |}
    /\ same_input r r'.
Proof.
  eexists. eexists. eexists.
  match goal with
  | |- exists r r', ?run = ?res /\ _ =>
      assert (Hrun : run = res) by (vm_compute; reflexivity)
  end.
  destruct (create_data_source_full _ _ _ _ _ _ _ Hrun)
    as (r & log1 & ok & r' & _ & _ & _ & Hl & Hst & Hs & _ & _ & _ & Hfresh).
  destruct (Hfresh (or_introl eq_refl)) as (Hnew & Hpath & n & m & Hre & Htot).
  exists r, r'.
  assert (Hnm : n = 2 /\ m = 2).
  { vm_compute in Hre. inversion Hre. split; reflexivity. }
  destruct Hnm; subst n m.
  assert (Hlog1 : log1 = [EvFileSize ("data/Kron2-2", "block-00.bin")]).
  { revert Hnew. unfold kron_reader_new, file_size, bind, emit, ret.
    vm_compute. intros E. inversion E. reflexivity. }
  split; [exact Hrun |]. split; [rewrite <- Hlog1; exact Hnew |].
  split; [exact Htot |]. split; [exact Hpath |].
  split; [rewrite Hl, Htot; reflexivity |]. split; [exact Hst | exact Hs].
Defined.

End Frames.

(** * The order of the two integers of a record *)

Section Orientation.
Import Kron KronInv.

(** C5, as the code has it.  The synthetic-format reader hands out the
    on-disk record under its cursor with [tail] equal to the record's
    second integer and [head] equal to its first; the plain-format adapter
    hands out a cell of its record buffer the same way round. *)
Theorem emitted_edge_swaps :
  (forall h r log,
     kron_wf h r = true -> kron_inv h r -> position r < _total_edges r ->
     exists e r' log',
       stream_at h r (position r) = Some e
       /\ next h r log = (Ok (Some (snd e, fst e), r'), log'))
  /\ (forall h l log tail head l' log',
        Plain.next_edge h l log = (Ok (Some (tail, head), l'), log') ->
        exists i,
          i < BUFFER_SIZE /\ Plain._cur l' = wrap64 (i + 1)
          /\ tail = snd (buffer_get (Plain._buffer l') i)
          /\ head = fst (buffer_get (Plain._buffer l') i)).
Proof.
  split.
  - intros h r log Hwf Hinv Hpos.
    destruct (next_ok h r log Hwf Hinv Hpos) as (e & r' & log' & He & Hn & _).
    exists e, r', log'. split; [exact He | exact Hn].
  - intros h l log tail head l' log'.
    assert (Hemit : forall l1 log1,
               Plain.next_edge_emit l1 log1 = (Ok (Some (tail, head), l'), log') ->
               exists i,
                 i < BUFFER_SIZE /\ Plain._cur l' = wrap64 (i + 1)
                 /\ tail = snd (buffer_get (Plain._buffer l') i)
                 /\ head = fst (buffer_get (Plain._buffer l') i)).
    { intros l1 log1. unfold Plain.next_edge_emit, ret, abort.
      destruct (Z.ltb_spec (Plain._cur l1) BUFFER_SIZE); [| discriminate].
      intros E. inversion E; subst. clear E.
      exists (Plain._cur l1). cbn. repeat split. assumption. }
    unfold Plain.next_edge, bind, ret.
    destruct (Plain._cur l =? Plain._count l); [| apply Hemit].
    destruct (Plain.read_buffer h l log) as [[[ok l1] | e] log1]; [| discriminate].
    destruct ok; cbn [negb]; [apply Hemit | discriminate].
Qed.

Lemma emitted_edge_swaps_witness :
  exists e r' log',
    stream_at kron_host kron_fresh 0 = Some e
    /\ e = (10, 11)
    /\ next kron_host kron_fresh [] = (Ok (Some (11, 10), r'), log').
Proof.
  destruct emitted_edge_swaps as [H _].
  destruct (H kron_host kron_fresh [] ltac:(vm_compute; reflexivity) kron_fresh_inv
              ltac:(cbn; lia)) as (e & r' & log' & He & Hn).
  exists e, r', log'.
  assert (E : e = (10, 11)) by (vm_compute in He; inversion He; reflexivity).
  split; [exact He |]. split; [exact E |]. subst e. exact Hn.
Defined.

(** C5 as stated fails: the first record of [kron_host] is [(10, 11)] on
    disk, and it is handed out with [tail = 11], not 10. *)
Lemma tail_is_not_first_integer :
  exists e tail head r' log',
    stream_at kron_host kron_fresh 0 = Some e
    /\ next kron_host kron_fresh [] = (Ok (Some (tail, head), r'), log')
    /\ ~ (tail = fst e /\ head = snd e).
Proof.
  eexists. eexists. eexists. eexists. eexists.
  split; [vm_compute; reflexivity |].
  split; [vm_compute; reflexivity |].
  cbn. intros [E _]. discriminate E.
Qed.

End Orientation.

(** * The plain directory format on two files *)

Section PlainScenario.

Lemma fill_ok (h : host) (l l1 : Plain.bin_loader) log log1 :
  Plain.fill h l log = (Ok l1, log1) ->
  Plain._iter l1 = Plain._iter l
  /\ (Plain._count l1 = 0 -> Plain.at_eof l1 = true)
  /\ (Plain.at_eof l1 = false -> Plain.at_eof l = false).
Proof.
  unfold Plain.fill, Plain.at_eof, fread, bind, emit, ret, abort, feof.
  destruct (Plain._file l) as [| f |]; [discriminate | | discriminate].
  intros E. inversion E; subst. clear E. cbn.
  split; [reflexivity |]. split.
  - intros ->. pose proof BUFFER_SIZE_pos.
    destruct (Z.ltb_spec 0 BUFFER_SIZE); [| lia]. apply orb_true_r.
  - intros E. apply orb_false_elim in E. apply E.
Qed.

Lemma fill_fuel (h : host) (l : Plain.bin_loader) log log1 :
  Plain.fill h l log <> (Fatal OutOfFuel, log1).
Proof.
  unfold Plain.fill, fread, bind, emit, ret, abort.
  destruct (Plain._file l); discriminate.
Qed.

Lemma next_file_ok (h : host) (l l2 : Plain.bin_loader) log log2 :
  Plain.next_file h l log = (Ok (true, l2), log2) ->
  S (length (Plain._iter l2)) = length (Plain._iter l).
Proof.
  unfold Plain.next_file, Plain.open_file, fclose, fopen, bind, emit, ret, abort.
  destruct (Plain._file l) as [| f |]; [discriminate | | discriminate].
  destruct (Plain._iter l) as [| x [| name rest]]; [discriminate | discriminate |].
  destruct (file_content h (Plain._dir l, name)); [| discriminate].
  intros E. inversion E; subst. reflexivity.
Qed.

Lemma next_file_fuel (h : host) (l : Plain.bin_loader) log log1 :
  Plain.next_file h l log <> (Fatal OutOfFuel, log1).
Proof.
  unfold Plain.next_file, Plain.open_file, fclose, fopen, bind, emit, ret, abort.
  destruct (Plain._file l) as [| f |]; [discriminate | | discriminate].
  destruct (Plain._iter l) as [| x [| name rest]]; [discriminate | discriminate |].
  destruct (file_content h (Plain._dir l, name)); discriminate.
Qed.

(** The bound on the rounds of [read_buffer] is never reached. *)
Lemma read_buffer_loop_fuel (h : host) (fuel : nat) (l : Plain.bin_loader) log log1 :
  (length (Plain._iter l) + (if Plain.at_eof l then 1 else 2) <= fuel)%nat ->
  Plain.read_buffer_loop h fuel l log <> (Fatal OutOfFuel, log1).
Proof.
  revert l log. induction fuel as [| fuel IH]; intros l log Hm.
  { destruct (Plain.at_eof l); lia. }
  cbn [Plain.read_buffer_loop]. unfold bind at 1.
  destruct (Plain.fill h l log) as [[l1 | e] loga] eqn:E1.
  2:{ intros E. inversion E; subst. exact (fill_fuel _ _ _ _ E1). }
  destruct (fill_ok _ _ _ _ _ E1) as (Hit1 & _ & Heof1).
  unfold bind at 1.
  assert (Hsecond : forall l2 logb,
             (length (Plain._iter l2) + 1 <= fuel)%nat ->
             bind (Plain.fill h l2)
               (fun l3 =>
                  if Plain._count l3 =? 0 then Plain.read_buffer_loop h fuel l3
                  else ret (true,
                            {| Plain._loaded_edges := Plain._loaded_edges l3;
                               Plain._buffer := Plain._buffer l3; Plain._cur := 0;
                               Plain._count := Plain._count l3;
                               Plain._dir := Plain._dir l3;
                               Plain._iter := Plain._iter l3;
                               Plain._file := Plain._file l3 |})) logb
             <> (Fatal OutOfFuel, log1)).
  { intros l2 logb Hl2. unfold bind.
    destruct (Plain.fill h l2 logb) as [[l3 | e] logc] eqn:E3.
    2:{ intros E. inversion E; subst. exact (fill_fuel _ _ _ _ E3). }
    destruct (fill_ok _ _ _ _ _ E3) as (Hit3 & Hz3 & _).
    destruct (Z.eqb_spec (Plain._count l3) 0) as [Hz | _]; [| discriminate].
    apply IH. rewrite Hit3, (Hz3 Hz). lia. }
  destruct (Plain.at_eof l1) eqn:Eeof.
  - destruct (Plain.next_file h l1 loga) as [[[ok l2] | e] logb] eqn:E2.
    2:{ intros E. inversion E; subst. exact (next_file_fuel _ _ _ _ E2). }
    destruct ok; cbn [negb]; [| discriminate].
    apply next_file_ok in E2. apply Hsecond.
    rewrite Hit1 in E2. destruct (Plain.at_eof l); lia.
  - unfold ret at 1. cbn [negb]. apply Hsecond.
    rewrite Hit1, (Heof1 eq_refl) in *. lia.
Qed.

Lemma read_buffer_fuel (h : host) (l : Plain.bin_loader) log log1 :
  Plain.read_buffer h l log <> (Fatal OutOfFuel, log1).
Proof.
  unfold Plain.read_buffer. apply read_buffer_loop_fuel.
  destruct (Plain.at_eof l); lia.
Qed.

(** When [read_buffer] reports that nothing is left, [next_file] has closed
    the last stream and [_file] still points to it. *)
Lemma next_file_false (h : host) (l l' : Plain.bin_loader) log log' :
  Plain.next_file h l log = (Ok (false, l'), log') -> Plain._file l' = Plain.Closed.
Proof.
  unfold Plain.next_file, Plain.open_file, fclose, fopen, bind, emit, ret, abort.
  destruct (Plain._file l) as [| f |]; [discriminate | | discriminate].
  destruct (Plain._iter l) as [| x [| name rest]]; [discriminate | |].
  - intros E. inversion E; subst. reflexivity.
  - destruct (file_content h (Plain._dir l, name)); discriminate.
Qed.

Lemma read_buffer_loop_false (h : host) (fuel : nat) (l l' : Plain.bin_loader) log log' :
  Plain.read_buffer_loop h fuel l log = (Ok (false, l'), log') ->
  Plain._file l' = Plain.Closed.
Proof.
  revert l log. induction fuel as [| fuel IH]; intros l log; [discriminate |].
  cbn [Plain.read_buffer_loop]. unfold bind at 1.
  destruct (Plain.fill h l log) as [[l1 | e] loga]; [| discriminate].
  unfold bind at 1.
  assert (Hsecond : forall l2 logb,
             bind (Plain.fill h l2)
               (fun l3 =>
                  if Plain._count l3 =? 0 then Plain.read_buffer_loop h fuel l3
                  else ret (true,
                            {| Plain._loaded_edges := Plain._loaded_edges l3;
                               Plain._buffer := Plain._buffer l3; Plain._cur := 0;
                               Plain._count := Plain._count l3;
                               Plain._dir := Plain._dir l3;
                               Plain._iter := Plain._iter l3;
                               Plain._file := Plain._file l3 |})) logb
             = (Ok (false, l'), log') ->
             Plain._file l' = Plain.Closed).
  { intros l2 logb. unfold bind.
    destruct (Plain.fill h l2 logb) as [[l3 | e] logc]; [| discriminate].
    destruct (Plain._count l3 =? 0); [apply IH | discriminate]. }
  destruct (Plain.at_eof l1).
  - destruct (Plain.next_file h l1 loga) as [[[ok l2] | e] logb] eqn:E2;
      [| discriminate].
    destruct ok; cbn [negb]; [apply Hsecond |].
    unfold ret. intros E. inversion E; subst.
    exact (next_file_false _ _ _ _ _ E2).
  - unfold ret at 1. cbn [negb]. apply Hsecond.
Qed.

(** Once the plain-format [next_edge] has signalled exhaustion, [rewind]
    closes the closed stream again. *)
Lemma plain_rewind_after_exhaustion (h : host) (l l' : Plain.bin_loader) log log' log2 :
  Plain.next_edge h l log = (Ok (None, l'), log') ->
  Plain.rewind h l' log2 = (Fatal (Undefined "fclose of a closed stream"), log2).
Proof.
  unfold Plain.next_edge, bind, ret.
  assert (Hemit : forall l1 log1,
             Plain.next_edge_emit l1 log1 <> (Ok (None, l'), log')).
  { intros l1 log1. unfold Plain.next_edge_emit, ret, abort.
    destruct (Plain._cur l1 <? BUFFER_SIZE); discriminate. }
  destruct (Plain._cur l =? Plain._count l);
    [| intros E; destruct (Hemit _ _ E)].
  destruct (Plain.read_buffer h l log) as [[[ok l1] | e] log1] eqn:Erb;
    [| discriminate].
  destruct ok; cbn [negb]; [intros E; destruct (Hemit _ _ E) |].
  intros E. inversion E; subst. clear E.
  apply read_buffer_loop_false in Erb.
  unfold Plain.rewind, bind, abort. rewrite Erb. reflexivity.
Qed.

Lemma plain_rewind_after_exhaustion_witness :
  exists l log l' log',
    bind (Plain.bin_loader_new plain_host "edges")
      (fun l0 => Plain.next_edges plain_host 2 l0) []
    = (Ok ([Some (8, 7); Some (10, 9)], l), log)
    /\ Plain.next_edge plain_host l log = (Ok (None, l'), log')
    /\ Plain.rewind plain_host l' log'
       = (Fatal (Undefined "fclose of a closed stream"), log').
Proof.
  eexists. eexists.
  match goal with
  | |- exists l' log', ?run = (Ok (?os, ?l), ?log) /\ _ =>
      assert (Hrun : run = (Ok (os, l), log)) by (vm_compute; reflexivity)
  end.
  eexists. eexists.
  match goal with
  | |- _ /\ ?run = ?res /\ _ =>
      assert (Hne : run = res) by (vm_compute; reflexivity)
  end.
  split; [exact Hrun |]. split; [exact Hne |].
  exact (plain_rewind_after_exhaustion _ _ _ _ _ _ Hne).
Defined.

(** C6 on the code.  On the directory with a file of 3 records and a file
    of 2 records, the first refill reads the first file, moves to the
    second at end of file and reads again into the same cells: the adapter
    hands out the 2 records of the second file and then signals
    exhaustion. *)
Theorem plain_two_files_lose_first :
  exists l log,
    bind (Plain.bin_loader_new plain_host "edges")
      (fun l0 => Plain.next_edges plain_host 3 l0) []
    = (Ok ([Some (8, 7); Some (10, 9); None], l), log).
Proof.
  eexists. eexists. vm_compute. reflexivity.
Qed.

(** C3 on the plain-format adapter.  After a pass that ran to exhaustion
    [next_file] has closed the stream and left the stale pointer in
    [_file]; [rewind] closes it a second time. *)
Theorem plain_rewind_after_pass :
  exists log,
    bind (Plain.bin_loader_new plain_host "edges")
      (fun l0 => bind (Plain.next_edges plain_host 3 l0)
                   (fun x => Plain.rewind plain_host (snd x))) []
    = (Fatal (Undefined "fclose of a closed stream"), log).
Proof.
  eexists. vm_compute. reflexivity.
Qed.

End PlainScenario.

(** * Further properties of the planner and of the file names *)

Section PlannerMore.
Import Kron KronInv KronDrive.

(** Whatever the configuration, a range the planner returns lies inside the
    stream: it starts at or after 0 and ends at or before [total_edges]. *)
Theorem plan_in_bounds (total : Z) (config : option ll_loader_config) (needed begin : Z) :
  0 <= total < 2 ^ 64 ->
  plan total config = Ok (needed, begin) ->
  0 <= begin /\ 0 <= needed /\ begin + needed <= total.
Proof.
  intros Ht. unfold plan.
  destruct config as [c |]; [| intros E; inversion E; lia].
  destruct (Z.ltb_spec 0 (lc_partial_load_num_parts c)) as [Hn | _];
    [| intros E; inversion E; lia].
  destruct (Z.eqb_spec (total mod lc_partial_load_num_parts c) 0) as [Hm | _];
    cbn [negb]; [| discriminate].
  destruct (Z.leb_spec (lc_partial_load_part c) 0); [discriminate |].
  destruct (Z.ltb_spec (lc_partial_load_num_parts c) (lc_partial_load_part c));
    [discriminate |].
  cbn [orb]. intros E. inversion E; subst. clear E.
  pose proof (exact_division total _ Hn Hm) as D.
  assert (0 <= total / lc_partial_load_num_parts c) by (apply Z.div_pos; lia).
  rewrite wrap64_small by nia. nia.
Qed.

Lemma plan_in_bounds_witness :
  plan 8 (shard 2 2) = Ok (4, 4) /\ 0 <= 4 /\ 0 <= 4 /\ 4 + 4 <= 8.
Proof.
  split; [reflexivity |].
  apply (plan_in_bounds 8 (shard 2 2) 4 4); [lia | reflexivity].
Defined.

(** A null configuration, a configuration with [num_parts = 0] (whatever
    its part index) and the single shard 1 of 1 are planned alike: the
    whole stream from edge 0. *)
Theorem plan_whole_stream (total part : Z) :
  plan total None = Ok (total, 0)
  /\ plan total (shard 0 part) = Ok (total, 0)
  /\ plan total (shard 1 1) = Ok (total, 0).
Proof.
  split; [reflexivity |]. split; [reflexivity |].
  unfold plan, shard. cbn [lc_partial_load_num_parts lc_partial_load_part].
  cbn [Z.ltb Z.compare Z.leb orb]. rewrite Z.mod_1_r. cbn [Z.eqb negb].
  rewrite Z.div_1_r. reflexivity.
Qed.

Lemma string_length_append (s t : string) :
  String.length (String.append s t) = (String.length s + String.length t)%nat.
Proof. induction s as [| a s IH]; cbn; [reflexivity | rewrite IH; reflexivity]. Qed.

Lemma append_cancel_r (s t u : string) :
  String.append s u = String.append t u -> s = t.
Proof.
  revert t. induction s as [| a s IH]; intros [| b t] E; cbn in E.
  - reflexivity.
  - apply (f_equal String.length) in E. cbn in E.
    rewrite string_length_append in E. lia.
  - apply (f_equal String.length) in E. cbn in E.
    rewrite string_length_append in E. lia.
  - inversion E; subst. f_equal. apply IH. assumption.
Qed.

Lemma decimal_value_of_N (n : N) :
  decimal_value (NilZero.string_of_uint (N.to_uint n)) = Some n.
Proof.
  unfold decimal_value, NilZero.string_of_uint.
  destruct (N.to_uint n) eqn:E;
    try (rewrite <- E, NilEmpty.usu, DecimalN.Unsigned.of_to; reflexivity).
  cbn. rewrite <- (DecimalN.Unsigned.of_to n), E. reflexivity.
Qed.

(** Two different file indices never name the same backing file. *)
Theorem filename_injective (a b : Z) :
  0 <= a -> 0 <= b -> a <> b -> filename a <> filename b.
Proof.
  intros Ha Hb Hne E. apply Hne. unfold filename in E. cbn [String.append] in E.
  inversion E as [E']. clear E. apply append_cancel_r in E'.
  assert (Hdec : forall id, 0 <= id ->
             decimal_value
               (if id <? 10
                then String.append "0"
                       (NilZero.string_of_uint (N.to_uint (Z.to_N id)))
                else NilZero.string_of_uint (N.to_uint (Z.to_N id)))
             = Some (Z.to_N id)).
  { intros id Hid. destruct (id <? 10).
    - pose proof (decimal_value_of_N (Z.to_N id)) as D.
      unfold decimal_value in *. cbn [String.append NilEmpty.uint_of_string].
      destruct (NilEmpty.uint_of_string
                  (NilZero.string_of_uint (N.to_uint (Z.to_N id)))) as [d |];
        [| discriminate].
      cbn. inversion D. reflexivity.
    - apply decimal_value_of_N. }
  pose proof (Hdec a Ha) as Da. pose proof (Hdec b Hb) as Db.
  cbn [String.append] in E', Da, Db. rewrite E' in Da. rewrite Da in Db.
  inversion Db. lia.
Qed.

Lemma filename_injective_witness :
  filename 3 = "block-03.bin" /\ filename 12 = "block-12.bin"
  /\ filename 3 <> filename 12.
Proof.
  split; [reflexivity |]. split; [reflexivity |].
  apply filename_injective; lia.
Defined.

End PlannerMore.

(** * Opening a reader, and [seek] on inputs that are not well formed *)

Section ReaderMore.
Import Kron KronInv KronDrive.

(** The state the constructor builds from the numbers in the path and the
    size of the first file. *)
Lemma kron_reader_new_run (h : host) (path : string) (n m : Z) (c : list EdgeType) log :
  host_regex h path = Some (n, m) ->
  0 <= n < 64 -> 0 <= m < 2 ^ 64 ->
  file_content h (path, filename 0) = Some c ->
  kron_reader_new h path log
  = (Ok {| _path := path; _buffer := []; _cur := 0; _begin := 0;
           _len := 0; _file := None; _cur_file_id := 0;
           _total_nodes := 2 ^ n;
           _total_edges := (2 ^ n * m) mod 2 ^ 64;
           _edges_per_file := Z.of_nat (length c) |},
     EvFileSize (path, filename 0) :: log).
Proof.
  intros Hre Hn Hm Hc.
  assert (Hpow : 0 < 2 ^ n < 2 ^ 64).
  { split; [apply Z.pow_pos_nonneg; lia | apply Z.pow_lt_mono_r; lia]. }
  unfold kron_reader_new, file_size, bind, emit, ret. rewrite Hre.
  destruct (Z.leb_spec (2 ^ 64) n); [lia |].
  destruct (Z.leb_spec (2 ^ 64) m); [lia |].
  destruct (Z.leb_spec 64 n); [lia |].
  cbn [orb]. rewrite Hc.
  rewrite Z.shiftl_1_l, (wrap64_small (2 ^ n)) by lia.
  unfold sizeof_EdgeType.
  rewrite (Z.mul_comm 16 (Z.of_nat (length c))), Z.div_mul by discriminate.
  reflexivity.
Qed.

(** The constructor on a path whose pattern gives [n < 64] and [m], with a
    first file of [length c] records: [2^n] nodes, [2^n * m] edges modulo
    [2^64], [length c] edges per file, an empty window at index 0 and no
    open stream; the only file-system call is the size query. *)
Theorem kron_reader_new_sizes (h : host) (path : string) (n m : Z) (c : list EdgeType) log :
  host_regex h path = Some (n, m) ->
  0 <= n < 64 -> 0 <= m < 2 ^ 64 ->
  file_content h (path, filename 0) = Some c ->
  exists r,
    kron_reader_new h path log = (Ok r, EvFileSize (path, filename 0) :: log)
    /\ total_nodes r = 2 ^ n
    /\ total_edges r = (2 ^ n * m) mod 2 ^ 64
    /\ _edges_per_file r = Z.of_nat (length c)
    /\ _begin r = 0 /\ _cur r = 0 /\ _len r = 0 /\ _file r = None
    /\ _path r = path
    /\ kron_inv h r.
Proof.
  intros Hre Hn Hm Hc.
  pose proof (kron_reader_new_run h path n m c log Hre Hn Hm Hc) as E.
  eexists. split; [exact E |].
  repeat (split; [reflexivity |]).
  exact (proj1 (kron_reader_new_inv _ _ _ _ _ E)).
Qed.

Lemma kron_reader_new_sizes_witness :
  exists r,
    kron_reader_new kron_host "data/Kron2-2" []
    = (Ok r, [EvFileSize ("data/Kron2-2", "block-00.bin")])
    /\ total_nodes r = 4 /\ total_edges r = 8 /\ _edges_per_file r = 4.
Proof.
  destruct (kron_reader_new_sizes kron_host "data/Kron2-2" 2 2
              [(10, 11); (12, 13); (14, 15); (16, 17)] [])
    as (r & E & Hnodes & Hedges & Hepf & _);
    [reflexivity | lia | lia | reflexivity |].
  exists r. split; [exact E |]. split; [exact Hnodes |].
  split; [exact Hedges | exact Hepf].
Defined.

(** On a path the pattern reads as two numbers in range, a missing first
    file [block-00.bin] ends the constructor in the exception that the size
    query throws; no stream has been opened. *)
Theorem kron_reader_new_missing_first_file (h : host) (path : string) (n m : Z) log :
  host_regex h path = Some (n, m) ->
  0 <= n < 64 -> 0 <= m < 2 ^ 64 ->
  file_content h (path, filename 0) = None ->
  file_size h (path, filename 0) log = (Fatal (Exception "filesystem_error"), log)
  /\ exists log',
       kron_reader_new h path log = (Fatal (Exception "filesystem_error"), log')
       /\ opens log' = opens log.
Proof.
  intros Hre Hn Hm Hc.
  assert (Hsize : file_size h (path, filename 0) log
                  = (Fatal (Exception "filesystem_error"), log)).
  { unfold file_size, abort. rewrite Hc. reflexivity. }
  split; [exact Hsize |].
  exists log. split; [| reflexivity].
  unfold kron_reader_new. rewrite Hre.
  destruct (Z.leb_spec (2 ^ 64) n); [lia |].
  destruct (Z.leb_spec (2 ^ 64) m); [lia |].
  destruct (Z.leb_spec 64 n); [lia |].
  cbn [orb]. unfold bind. rewrite Hsize. reflexivity.
Qed.

Lemma kron_reader_new_missing_first_file_witness :
  host_regex absent_host "data/Kron3-1" = Some (3, 1)
  /\ exists log',
       kron_reader_new absent_host "data/Kron3-1" []
       = (Fatal (Exception "filesystem_error"), log')
       /\ opens log' = opens [].
Proof.
  split; [reflexivity |].
  apply (proj2 (kron_reader_new_missing_first_file absent_host "data/Kron3-1" 3 1 []
                  eq_refl ltac:(lia) ltac:(lia) eq_refl)).
Defined.

(** [seek] to an index whose file does not exist ends in the open failure
    for that file; it has opened nothing. *)
Theorem seek_missing_file (h : host) (r : kron_reader) (n : Z) log :
  n < _total_edges r ->
  (_begin r <=? n) && (n <? wrap64 (_begin r + _len r)) = false ->
  _edges_per_file r <> 0 ->
  file_content h (filepath r (n / _edges_per_file r)) = None ->
  (forall f, _file r = Some f -> n / _edges_per_file r <> _cur_file_id r) ->
  exists log',
    seek h n r log = (Fatal (OpenFailed (filepath r (n / _edges_per_file r))), log')
    /\ opens log' = opens log.
Proof.
  intros Hn Hout Hepf Hc Hid. unfold seek.
  destruct (Z.leb_spec (_total_edges r) n); [lia |].
  rewrite Hout.
  destruct (Z.eqb_spec (_edges_per_file r) 0); [contradiction |].
  unfold bind, seek_open.
  destruct (_file r) as [f |] eqn:Ef.
  - destruct (Z.eqb_spec (n / _edges_per_file r) (_cur_file_id r)) as [E | _].
    + destruct (Hid f eq_refl E).
    + cbn [negb]. unfold bind, fclose, fopen, emit, ret, abort. rewrite Hc.
      eexists. split; reflexivity.
  - unfold bind, fopen, ret, abort. rewrite Hc. eexists. split; reflexivity.
Qed.

Lemma seek_missing_file_witness :
  exists log',
    seek missing_host 4 kron_fresh []
    = (Fatal (OpenFailed ("data/Kron2-2", "block-01.bin")), log')
    /\ opens log' = opens [].
Proof.
  apply (seek_missing_file missing_host kron_fresh 4 []);
    [cbn; lia | reflexivity | cbn; lia | reflexivity | discriminate].
Defined.

(** An empty first file makes [_edges_per_file] 0: on a path that names a
    stream with edges, [create_data_source] of a new front end divides by
    zero in the first [seek], after the size query and before any open. *)
Theorem empty_first_file_divides_by_zero (h : host) (file : string) (n m : Z) log :
  host_regex h file = Some (n, m) ->
  0 <= n < 64 -> 0 <= m < 2 ^ 64 -> 0 < (2 ^ n * m) mod 2 ^ 64 ->
  file_content h (file, filename 0) = Some [] ->
  create_data_source h ll_loader_bin_new file log
  = (Fatal (Undefined "division by zero"), EvFileSize (file, filename 0) :: log).
Proof.
  intros Hre Hn Hm Htot Hc.
  pose proof (kron_reader_new_run h file n m [] log Hre Hn Hm Hc) as E.
  match type of E with
  | _ = (Ok ?r0, _) => set (r := r0) in E
  end.
  assert (Hseek : forall log1,
             seek h 0 r log1 = (Fatal (Undefined "division by zero"), log1)).
  { intros log1. unfold seek. cbn [_total_edges r].
    destruct (Z.leb_spec ((2 ^ n * m) mod 2 ^ 64) 0); [lia |].
    reflexivity. }
  unfold create_data_source, init, init_reader, bind, lift.
  cbn [loader_reader ll_loader_bin_new].
  rewrite E. cbn [plan]. unfold ret at 1.
  unfold bin_loader_new, rewind, bind. cbn [_begin_edge].
  rewrite Hseek. reflexivity.
Qed.

Lemma empty_first_file_divides_by_zero_witness :
  create_data_source empty_first_host ll_loader_bin_new "data/Kron2-2" []
  = (Fatal (Undefined "division by zero"),
     [EvFileSize ("data/Kron2-2", "block-00.bin")]).
Proof.
  apply (empty_first_file_divides_by_zero empty_first_host "data/Kron2-2" 2 2);
    [reflexivity | lia | lia | reflexivity | reflexivity].
Defined.

(** One [seek] into a file that is shorter than the index asks for: it reads
    nothing, reports success and leaves an empty window at the index. *)
Lemma seek_short_file (h : host) (r : kron_reader) (n : Z) (c : list EdgeType) log :
  0 <= n < _total_edges r ->
  (_begin r <=? n) && (n <? wrap64 (_begin r + _len r)) = false ->
  0 < _edges_per_file r -> _edges_per_file r * sizeof_EdgeType < 2 ^ 64 ->
  (forall f, _file r = Some f -> f_path f = filepath r (_cur_file_id r)) ->
  file_content h (filepath r (n / _edges_per_file r)) = Some c ->
  Z.of_nat (length c) <= n mod _edges_per_file r ->
  exists f log1,
    seek h n r log
    = (Ok (true,
           {| _path := _path r; _buffer := _buffer r; _cur := 0; _begin := n;
              _len := 0; _file := Some f;
              _cur_file_id := n / _edges_per_file r;
              _total_nodes := _total_nodes r; _total_edges := _total_edges r;
              _edges_per_file := _edges_per_file r |}), log1)
    /\ f_path f = filepath r (n / _edges_per_file r).
Proof.
  intros Hn Hout Hepf Hsz Hf Hc Hshort.
  destruct (seek_open_ok h r (n / _edges_per_file r) c log Hf Hc)
    as (f & log1 & Hopen & Hpath).
  unfold seek.
  destruct (Z.leb_spec (_total_edges r) n); [lia |].
  rewrite Hout.
  destruct (Z.eqb_spec (_edges_per_file r) 0); [lia |].
  unfold bind. rewrite Hopen.
  unfold fseek, fread, bind, emit, ret. cbn [f_path f_pos f_eof].
  rewrite Hpath, Hc.
  pose proof (Z.mod_pos_bound n (_edges_per_file r) Hepf) as Hoff.
  rewrite wrap64_small by (unfold sizeof_EdgeType in *; lia).
  rewrite Z.div_mul by discriminate.
  rewrite (skipn_all2 c) by lia.
  rewrite firstn_nil. cbn [length buffer_fill app skipn Z.of_nat].
  eexists. eexists. split; reflexivity.
Qed.

(** A truncated backing file is not reported: [seek] to an index below
    [total_edges] that the file does not hold returns [true] with an empty
    window, and the [next] that follows hands out cell 0 of the buffer as
    it was before, as if it were the record. *)
Theorem seek_truncated_file (h : host) (r : kron_reader) (n : Z) (c : list EdgeType) log :
  0 <= n < _total_edges r -> _total_edges r <= 2 ^ 64 ->
  (_begin r <=? n) && (n <? wrap64 (_begin r + _len r)) = false ->
  0 < _edges_per_file r -> _edges_per_file r * sizeof_EdgeType < 2 ^ 64 ->
  (forall f, _file r = Some f -> f_path f = filepath r (_cur_file_id r)) ->
  file_content h (filepath r (n / _edges_per_file r)) = Some c ->
  Z.of_nat (length c) <= n mod _edges_per_file r ->
  exists r1 log1 r2 log2,
    seek h n r log = (Ok (true, r1), log1)
    /\ _begin r1 = n /\ _len r1 = 0 /\ _buffer r1 = _buffer r
    /\ next h r1 log1
       = (Ok (Some (emitted (buffer_get (_buffer r) 0)), r2), log2)
    /\ _cur r2 = 1 /\ _len r2 = 0.
Proof.
  intros Hn Ht Hout Hepf Hsz Hf Hc Hshort.
  destruct (seek_short_file h r n c log Hn Hout Hepf Hsz Hf Hc Hshort)
    as (f & log1 & Hseek & Hpath).
  match type of Hseek with
  | _ = (Ok (true, ?x), _) => set (r1 := x) in *
  end.
  destruct (seek_short_file h r1 n c log1) as (f2 & log2 & Hseek2 & _);
    try assumption.
  { cbn [_begin _len r1]. rewrite Z.add_0_r, wrap64_small by lia.
    rewrite Z.ltb_irrefl. apply andb_false_r. }
  { intros f' Ef. inversion Ef; subst f'. exact Hpath. }
  exists r1, log1. eexists. exists log2.
  split; [exact Hseek |].
  split; [reflexivity |]. split; [reflexivity |]. split; [reflexivity |].
  unfold next. cbn [_cur _len _begin r1]. cbn [Z.eqb].
  rewrite Z.add_0_r, wrap64_small by lia.
  unfold bind. rewrite Hseek2. cbn [negb].
  unfold next_emit. cbn [_cur].
  pose proof BUFFER_SIZE_pos as HB.
  destruct (Z.ltb_spec 0 BUFFER_SIZE); [| lia].
  cbn [_buffer r1 set_cur _cur _len]. unfold ret, emitted.
  split; [reflexivity |]. split; reflexivity.
Qed.

Lemma seek_truncated_file_witness :
  exists r log r1 log1 r2 log2,
    seek truncated_host 4 kron_fresh [] = (Ok (true, r), log)
    /\ _buffer r = [(18, 19); (20, 21)]
    /\ seek truncated_host 6 r log = (Ok (true, r1), log1)
    /\ _len r1 = 0
    /\ next truncated_host r1 log1 = (Ok (Some (19, 18), r2), log2).
Proof.
  eexists. eexists.
  match goal with
  | |- exists r1 log1 r2 log2, ?run = (Ok (true, ?r), ?log) /\ _ =>
      assert (Hrun : run = (Ok (true, r), log)) by (vm_compute; reflexivity)
  end.
  match type of Hrun with
  | _ = (Ok (true, ?r), ?log) =>
      destruct (seek_truncated_file truncated_host r 6 [(18, 19); (20, 21)] log)
        as (r1 & log1 & r2 & log2 & Hseek & _ & Hlen & _ & Hnext & _);
        [cbn; lia | cbn; lia | reflexivity | cbn; lia | cbn; lia
        | intros f Ef; inversion Ef; reflexivity | reflexivity | cbn; lia |]
  end.
  exists r1, log1, r2, log2.
  split; [exact Hrun |]. split; [reflexivity |].
  split; [exact Hseek |]. split; [exact Hlen | exact Hnext].
Defined.

(** Once the cursor stands at the end of the window and the window ends at
    or after [total_edges], every further [next] returns [false] and
    changes neither the reader nor the trace. *)
Theorem next_exhausted_stays (h : host) (r : kron_reader) (n : nat) log :
  _cur r = _len r ->
  0 <= _begin r + _len r < 2 ^ 64 ->
  _total_edges r <= _begin r + _len r ->
  nexts h n r log = (Ok (repeat None n, r), log).
Proof.
  intros Hcur Hrange Hend. induction n as [| n IH]; [reflexivity |].
  cbn [nexts repeat]. unfold bind at 1. unfold next.
  rewrite Hcur, Z.eqb_refl, wrap64_small by lia.
  unfold bind at 1. rewrite seek_fail by lia. cbn [negb]. unfold ret at 1.
  unfold bind. rewrite IH. reflexivity.
Qed.

Lemma next_exhausted_stays_witness :
  exists os r log,
    nexts kron_host 8 kron_fresh [] = (Ok (os, r), log)
    /\ nexts kron_host 3 r log = (Ok ([None; None; None], r), log).
Proof.
  eexists. eexists. eexists.
  match goal with
  | |- ?run = ?res /\ _ => assert (Hrun : run = res) by (vm_compute; reflexivity)
  end.
  split; [exact Hrun |].
  apply (next_exhausted_stays kron_host _ 3); cbn; lia.
Defined.

(** The invariant of the reader is one: the constructor establishes it, and
    on a well-formed input [seek] and [next] return without a fatal
    condition and keep it, on the same input. *)
Theorem reader_invariant (h : host) :
  (forall path log r log',
     kron_reader_new h path log = (Ok r, log') -> kron_inv h r)
  /\ (forall r n log,
        kron_wf h r = true -> kron_inv h r -> 0 <= n ->
        exists ok r' log',
          seek h n r log = (Ok (ok, r'), log')
          /\ kron_inv h r' /\ same_input r r')
  /\ (forall r log,
        kron_wf h r = true -> kron_inv h r ->
        exists o r' log',
          next h r log = (Ok (o, r'), log')
          /\ kron_inv h r' /\ same_input r r').
Proof.
  split; [| split].
  - intros path log r log' E. exact (proj1 (kron_reader_new_inv _ _ _ _ _ E)).
  - intros r n log Hwf Hinv Hn. apply seek_preserves; assumption.
  - intros r log Hwf Hinv. apply next_preserves; assumption.
Qed.

Lemma reader_invariant_witness :
  kron_inv kron_host kron_fresh
  /\ (exists ok r' log', seek kron_host 5 kron_fresh [] = (Ok (ok, r'), log')
                         /\ kron_inv kron_host r')
  /\ (exists o r' log', next kron_host kron_fresh [] = (Ok (o, r'), log')
                        /\ kron_inv kron_host r').
Proof.
  destruct (reader_invariant kron_host) as (Hnew & Hseek & Hnext).
  pose proof (Hnew _ _ _ _ kron_fresh_new) as Hinv.
  split; [exact Hinv |]. split.
  - destruct (Hseek kron_fresh 5 [] ltac:(vm_compute; reflexivity) Hinv ltac:(lia))
      as (ok & r' & log' & E & Hi & _).
    exists ok, r', log'. split; assumption.
  - destruct (Hnext kron_fresh [] ltac:(vm_compute; reflexivity) Hinv)
      as (o & r' & log' & E & Hi & _).
    exists o, r', log'. split; assumption.
Defined.

End ReaderMore.

(** * Adapters and the front end over a shared reader *)

Section AdapterMore.
Import Kron KronInv KronDrive.

Lemma count_some_cons {A : Type} (o : option A) (os : list (option A)) :
  count_some (o :: os) = (match o with Some _ => 1 | None => 0 end) + count_some os.
Proof.
  unfold count_some. cbn [filter]. destruct o; cbn [is_some length]; lia.
Qed.

(** Whatever the host holds and whatever state the shared reader is in, an
    adapter counts the records it hands out and never hands out more than
    [needed_edges]: after any number of calls [loaded_edges] has grown by
    the number of successful calls and is at most [needed_edges]. *)
Theorem next_edges_bounded (h : host) (n : nat) (l : bin_loader) (r : kron_reader) log os l' r' log' :
  0 <= _loaded_edges l <= _needed_edges l -> _needed_edges l < 2 ^ 64 ->
  next_edges h n l r log = (Ok (os, l', r'), log') ->
  _loaded_edges l' = _loaded_edges l + count_some os
  /\ _loaded_edges l' <= _needed_edges l
  /\ _needed_edges l' = _needed_edges l /\ _begin_edge l' = _begin_edge l.
Proof.
  revert l r log os l' r' log'.
  induction n as [| n IH]; intros l r log os l' r' log' Hl Hk E.
  - cbn in E. inversion E; subst. unfold count_some. cbn. lia.
  - cbn [next_edges] in E. unfold bind at 1 in E.
    destruct (next_edge h l r log) as [[[[o l1] r1] | e] log1] eqn:E1;
      [| discriminate].
    unfold bind in E.
    destruct (next_edges h n l1 r1 log1) as [[[[os1 l2] r2] | e] log2] eqn:E2;
      [| discriminate].
    unfold ret in E. inversion E; subst. clear E.
    assert (H1 : _loaded_edges l1
                 = _loaded_edges l + (match o with Some _ => 1 | None => 0 end)
                 /\ _loaded_edges l1 <= _needed_edges l
                 /\ _needed_edges l1 = _needed_edges l
                 /\ _begin_edge l1 = _begin_edge l).
    { unfold next_edge in E1.
      destruct (Z.eqb_spec (_loaded_edges l) (_needed_edges l)).
      - unfold ret in E1. inversion E1; subst. lia.
      - unfold bind, ret in E1.
        destruct (next h r log) as [[[o' r''] | e] log'']; [| discriminate].
        inversion E1; subst. cbn.
        rewrite wrap64_small by (destruct o; lia).
        destruct o; lia. }
    destruct H1 as (A1 & A2 & A3 & A4).
    rewrite count_some_cons.
    destruct (IH l1 r1 log1 os1 l' r' log') as (B1 & B2 & B3 & B4);
      [destruct o; lia | lia | exact E2 |].
    destruct o; lia.
Qed.

Lemma next_edges_bounded_witness :
  exists l st log r0 os l' r' log',
    create_data_source long_host ll_loader_bin_new "Kron1-1" [] = (Ok (l, st), log)
    /\ loader_reader st = Some r0
    /\ next_edges long_host 5 l r0 log = (Ok (os, l', r'), log')
    /\ _needed_edges l = 2
    /\ _loaded_edges l' = 0 + count_some os /\ _loaded_edges l' <= 2.
Proof.
  eexists. eexists. eexists. eexists. eexists. eexists. eexists. eexists.
  match goal with
  | |- ?run = ?res /\ _ => assert (Hrun : run = res) by (vm_compute; reflexivity)
  end.
  split; [exact Hrun |]. split; [reflexivity |].
  match goal with
  | |- ?run = ?res /\ _ => assert (Hne : run = res) by (vm_compute; reflexivity)
  end.
  split; [exact Hne |]. split; [reflexivity |].
  eapply next_edges_bounded in Hne; [| cbn; lia | cbn; lia].
  destruct Hne as (H1 & H2 & _).
  split; [exact H1 | exact H2].
Defined.

(** Adapters do not own the reader.  When a second adapter is built over
    the reader another adapter is reading from, the next record the first
    adapter hands out is the one at the second adapter's [begin_edge],
    whatever index the first had reached. *)
Theorem shared_reader_follows_last_rewind (h : host) (r : kron_reader) (l1 : bin_loader) (needed2 begin2 : Z) log :
  kron_wf h r = true -> kron_inv h r ->
  0 <= begin2 < _total_edges r ->
  _loaded_edges l1 <> _needed_edges l1 ->
  exists l2 r1 log1 e l1' r2 log2,
    bin_loader_new h r needed2 begin2 log = (Ok (l2, r1), log1)
    /\ stream_at h r begin2 = Some e
    /\ next_edge h l1 r1 log1 = (Ok (Some (snd e, fst e), l1', r2), log2).
Proof.
  intros Hwf Hinv Hb Hl.
  set (l := {| _begin_edge := begin2; _needed_edges := needed2; _loaded_edges := 0 |}).
  destruct (rewind_ok h l r log Hwf Hinv) as (r1 & log1 & Hrw & Hi1 & Hs1 & Hp1);
    [cbn; lia |].
  specialize (Hp1 ltac:(cbn; lia)). cbn [_begin_edge l] in Hp1.
  assert (Hwf1 : kron_wf h r1 = true) by (rewrite (same_input_wf h r r1 Hs1); exact Hwf).
  destruct (next_ok h r1 log1 Hwf1 Hi1) as (e & r2 & log2 & He & Hn & _).
  { destruct Hs1 as (_ & _ & A3 & _). lia. }
  rewrite Hp1, (same_input_stream_at h r r1 _ Hs1) in He.
  eexists. exists r1, log1, e. eexists. exists r2, log2.
  split; [exact Hrw |]. split; [exact He |].
  unfold next_edge.
  destruct (Z.eqb_spec (_loaded_edges l1) (_needed_edges l1)); [contradiction |].
  unfold bind. rewrite Hn. reflexivity.
Qed.

Lemma shared_reader_follows_last_rewind_witness :
  exists l2 r1 log1 l1' r2 log2,
    bin_loader_new kron_host kron_fresh 4 4 [] = (Ok (l2, r1), log1)
    /\ next_edge kron_host
         {| _begin_edge := 0; _needed_edges := 8; _loaded_edges := 3 |} r1 log1
       = (Ok (Some (19, 18), l1', r2), log2).
Proof.
  destruct (shared_reader_follows_last_rewind kron_host kron_fresh
              {| _begin_edge := 0; _needed_edges := 8; _loaded_edges := 3 |}
              4 4 [])
    as (l2 & r1 & log1 & e & l1' & r2 & log2 & Hnew & He & Hnext);
    [vm_compute; reflexivity | exact kron_fresh_inv | cbn; lia | cbn; lia |].
  assert (E : e = (18, 19)) by (vm_compute in He; inversion He; reflexivity).
  subst e. exists l2, r1, log1, l1', r2, log2.
  split; [exact Hnew | exact Hnext].
Defined.

End AdapterMore.

(** * Data sources and shards read to the end *)

Section FrontEndMore.
Import Kron KronInv KronDrive.

Lemma init_reader_inv (h : host) (st : ll_loader_bin) (file : string) log r log1 :
  loader_inv h st -> init_reader h st file log = (Ok r, log1) -> kron_inv h r.
Proof.
  intros Hst. unfold init_reader.
  destruct (loader_reader st) as [r0 |] eqn:Er.
  - destruct (String.eqb (loader_path st) file).
    + unfold ret. intros E. inversion E; subst. apply Hst. exact Er.
    + intros E. exact (proj1 (kron_reader_new_inv _ _ _ _ _ E)).
  - intros E. exact (proj1 (kron_reader_new_inv _ _ _ _ _ E)).
Qed.

(** What [create_data_source] does, step by step. *)
Lemma create_data_source_steps (h : host) (st : ll_loader_bin) (file : string) log l st' log' :
  create_data_source h st file log = (Ok (l, st'), log') ->
  exists r log1 ok r1,
    init_reader h st file log = (Ok r, log1)
    /\ seek h 0 r log1 = (Ok (ok, r1), log')
    /\ l = {| _begin_edge := 0; _needed_edges := _total_edges r; _loaded_edges := 0 |}
    /\ st' = {| loader_reader := Some r1; loader_path := file |}.
Proof.
  unfold create_data_source, init, bin_loader_new, rewind, bind, lift, ret.
  destruct (init_reader h st file log) as [[r | e] log1]; [| discriminate].
  cbn [plan total_edges _begin_edge _needed_edges].
  destruct (seek h 0 r log1) as [[[ok r1] | e] log2] eqn:Hseek; [| discriminate].
  intros E. inversion E; subst. exists r, log1, ok, r1.
  repeat split. exact Hseek.
Qed.

(** A data source streams the whole input: on a well-formed input, the
    adapter [create_data_source] returns answers [total_edges] calls of
    [next_edge] with all the records of the stream in order, and every
    later call with the exhaustion signal.  The reader it leaves in the
    front end satisfies the invariant again. *)
Theorem data_source_streams_all (h : host) (st : ll_loader_bin) (file : string) log l st' log' r' :
  loader_inv h st ->
  create_data_source h st file log = (Ok (l, st'), log') ->
  loader_reader st' = Some r' ->
  kron_wf h r' = true ->
  exists l2 r2 log2,
    next_edges h (Z.to_nat (total_edges r')) l r' log'
    = (Ok (map Some (records h r' 0 (Z.to_nat (total_edges r'))), l2, r2), log2)
    /\ (forall m log3, next_edges h m l2 r2 log3 = (Ok (repeat None m, l2, r2), log3))
    /\ kron_inv h r2.
Proof.
  intros Hst Hcreate Hr' Hwf'.
  destruct (create_data_source_steps _ _ _ _ _ _ _ Hcreate)
    as (r & log1 & ok & r1 & Hinit & Hseek & -> & ->).
  cbn in Hr'. inversion Hr'; subst r'. clear Hr'.
  pose proof (init_reader_inv _ _ _ _ _ _ Hst Hinit) as Hinv.
  pose proof (seek_same_input _ _ _ _ _ _ _ Hseek) as Hs.
  assert (Hwf : kron_wf h r = true) by (rewrite <- (same_input_wf h r r1 Hs); exact Hwf').
  destruct (kron_wf_spec h r Hwf) as (_ & _ & Ht0 & Ht & _ & _).
  pose proof BUFFER_SIZE_pos as HB.
  pose proof Hs as (_ & _ & Htot & _). unfold total_edges. rewrite Htot.
  destruct (Z.eq_dec (_total_edges r) 0) as [Hz | Hnz].
  - rewrite Hz. cbn [Z.to_nat next_edges records seq map]. unfold ret.
    rewrite seek_fail in Hseek by lia. inversion Hseek; subst.
    eexists. eexists. eexists. split; [reflexivity |]. split; [| exact Hinv].
    intros m log3. apply next_edges_done. cbn. lia.
  - destruct (seek_ok h r 0 log1 Hwf Hinv) as (r1' & log1' & Hseek' & Hi1 & _ & Hp1 & _);
      [lia |].
    rewrite Hseek in Hseek'. inversion Hseek'; subst ok r1' log1'. clear Hseek'.
    set (l := {| _begin_edge := 0; _needed_edges := _total_edges r; _loaded_edges := 0 |}).
    destruct (next_edges_ok h (Z.to_nat (_total_edges r)) l r1 log' Hwf' Hi1)
      as (r2 & log2 & Hne & Hi2 & _); cbn [_loaded_edges _needed_edges l]; try lia.
    rewrite Hp1 in Hne.
    eexists. exists r2, log2. split; [exact Hne |]. split; [| exact Hi2].
    intros m log3. apply next_edges_done. cbn. lia.
Qed.

Lemma kron_new_loader_inv (h : host) : loader_inv h ll_loader_bin_new.
Proof. intros r E. discriminate E. Qed.

Lemma data_source_streams_all_witness :
  exists l st log r l2 r2 log2,
    create_data_source kron_host ll_loader_bin_new "data/Kron2-2" [] = (Ok (l, st), log)
    /\ loader_reader st = Some r
    /\ next_edges kron_host 8 l r log
       = (Ok ([Some (11, 10); Some (13, 12); Some (15, 14); Some (17, 16);
               Some (19, 18); Some (21, 20); Some (23, 22); Some (25, 24)],
              l2, r2), log2)
    /\ next_edges kron_host 2 l2 r2 log2 = (Ok ([None; None], l2, r2), log2).
Proof.
  eexists. eexists. eexists. eexists.
  match goal with
  | |- exists l2 r2 log2, ?run = ?res /\ _ =>
      assert (Hrun : run = res) by (vm_compute; reflexivity)
  end.
  destruct (data_source_streams_all _ _ _ _ _ _ _ _ (kron_new_loader_inv kron_host)
              Hrun eq_refl ltac:(vm_compute; reflexivity))
    as (l2 & r2 & log2 & Hne & Hdone & _).
  exists l2, r2, log2.
  split; [exact Hrun |]. split; [reflexivity |].
  split; [exact Hne | exact (Hdone 2%nat log2)].
Defined.

Lemma set_cur_same (r : kron_reader) : set_cur r (_cur r) = r.
Proof. destruct r. reflexivity. Qed.

(** The front end caches its reader: on a well-formed input, calling
    [create_data_source] again for the same path right after a first call
    makes no file-system call at all and returns the same adapter and the
    same front-end state. *)
Theorem create_data_source_again (h : host) (st : ll_loader_bin) (file : string) log l st1 log1 r1 :
  loader_inv h st ->
  create_data_source h st file log = (Ok (l, st1), log1) ->
  loader_reader st1 = Some r1 ->
  kron_wf h r1 = true ->
  create_data_source h st1 file log1 = (Ok (l, st1), log1).
Proof.
  intros Hst Hcreate Hr1 Hwf1.
  destruct (create_data_source_steps _ _ _ _ _ _ _ Hcreate)
    as (r & log0 & ok & r1' & Hinit & Hseek & -> & ->).
  cbn in Hr1. inversion Hr1; subst r1'. clear Hr1.
  pose proof (init_reader_inv _ _ _ _ _ _ Hst Hinit) as Hinv.
  pose proof (seek_same_input _ _ _ _ _ _ _ Hseek) as Hs.
  assert (Hwf : kron_wf h r = true) by (rewrite <- (same_input_wf h r r1 Hs); exact Hwf1).
  destruct (kron_wf_spec h r Hwf) as (_ & _ & Ht0 & Ht & _ & _).
  pose proof BUFFER_SIZE_pos as HB.
  pose proof Hs as (_ & _ & Htot & _).
  assert (Hseek2 : seek h 0 r1 log1 = (Ok (ok, r1), log1)).
  { destruct (Z.eq_dec (_total_edges r) 0) as [Hz | Hnz].
    - rewrite seek_fail in Hseek by lia. inversion Hseek; subst.
      apply seek_fail. lia.
    - destruct (seek_ok h r 0 log0 Hwf Hinv)
        as (r1' & log1' & Hseek' & Hi1 & _ & Hp1 & Hlt); [lia |].
      rewrite Hseek in Hseek'. inversion Hseek'; subst ok r1' log1'. clear Hseek'.
      destruct Hi1 as [Hcur Hlen Hbegin _ _]. unfold position in Hp1.
      assert (Hb0 : _begin r1 = 0) by lia.
      assert (Hc0 : _cur r1 = 0) by lia.
      rewrite (seek_in_window h 0 r1 log1) by lia.
      rewrite Hb0, Z.sub_0_r. rewrite <- Hc0 at 1. rewrite set_cur_same.
      reflexivity. }
  unfold create_data_source, init, init_reader, bind, lift.
  cbn [loader_reader loader_path]. rewrite String.eqb_refl.
  unfold ret at 1. cbn [plan total_edges]. unfold ret at 1.
  unfold bin_loader_new, rewind, bind. cbn [_begin_edge _needed_edges].
  rewrite Hseek2. unfold ret, total_edges. rewrite Htot. reflexivity.
Qed.

Lemma create_data_source_again_witness :
  exists l st log,
    create_data_source kron_host ll_loader_bin_new "data/Kron2-2" [] = (Ok (l, st), log)
    /\ create_data_source kron_host st "data/Kron2-2" log = (Ok (l, st), log).
Proof.
  eexists. eexists. eexists.
  match goal with
  | |- ?run = ?res /\ _ => assert (Hrun : run = res) by (vm_compute; reflexivity)
  end.
  split; [exact Hrun |].
  exact (create_data_source_again _ _ _ _ _ _ _ _ (kron_new_loader_inv kron_host)
           Hrun eq_refl ltac:(vm_compute; reflexivity)).
Defined.

End FrontEndMore.

(** * Shards put end to end *)

Section Shards.
Import Kron KronInv KronDrive.

Lemma records_app (h : host) (r : kron_reader) (b : Z) (k1 k2 : nat) :
  records h r b (k1 + k2)
  = records h r b k1 ++ records h r (b + Z.of_nat k1) k2.
Proof.
  revert b. induction k1 as [| k1 IH]; intros b.
  - cbn [Nat.add Z.of_nat]. rewrite Z.add_0_r. reflexivity.
  - cbn [Nat.add]. rewrite !records_S, IH. cbn [app]. do 3 f_equal. lia.
Qed.

(** One shard, read over a reader in any state, hands out its own range. *)
Lemma shard_pass_ok (h : host) (r : kron_reader) (nparts part : Z) log :
  kron_wf h r = true -> kron_inv h r ->
  0 < nparts -> _total_edges r mod nparts = 0 -> 1 <= part <= nparts ->
  exists r' log',
    shard_pass h r nparts part log
    = (Ok (map Some (records h r ((part - 1) * (_total_edges r / nparts))
                       (Z.to_nat (_total_edges r / nparts))), r'), log')
    /\ kron_inv h r' /\ same_input r r'.
Proof.
  intros Hwf Hinv Hn Hm Hp.
  destruct (kron_wf_spec h r Hwf) as (_ & _ & Ht0 & Ht & _ & _).
  pose proof BUFFER_SIZE_pos as HB.
  pose proof (exact_division _ _ Hn Hm) as D.
  set (q := _total_edges r / nparts) in *.
  assert (Hq : 0 <= q) by (apply Z.div_pos; lia).
  set (l := {| _begin_edge := (part - 1) * q; _needed_edges := q; _loaded_edges := 0 |}).
  destruct (pass_ok h l r log Hwf Hinv)
    as (l1 & r1 & log1 & l2 & r2 & log2 & Hrw & Hne & Hi2 & Hs2 & _);
    cbn [_begin_edge _needed_edges l]; try nia.
  destruct (rewind_ok h l r log Hwf Hinv) as (r1' & log1' & Hrw' & _);
    [cbn; nia |].
  rewrite Hrw in Hrw'. inversion Hrw'; subst l1 r1' log1'. clear Hrw'.
  cbn [_needed_edges _begin_edge l] in Hne.
  exists r2, log2. split; [| split; assumption].
  unfold shard_pass, bind, lift. unfold total_edges.
  rewrite plan_shard by (try assumption; lia). fold q.
  unfold bin_loader_new. fold l. rewrite Hrw, Hne. reflexivity.
Qed.

Lemma shard_passes_ok (h : host) (nparts : Z) (c p0 : nat) (r : kron_reader) log :
  kron_wf h r = true -> kron_inv h r ->
  0 < nparts -> _total_edges r mod nparts = 0 ->
  Z.of_nat p0 + Z.of_nat c <= nparts ->
  exists r' log',
    shard_passes h r nparts (map (fun i => Z.of_nat i + 1) (seq p0 c)) log
    = (Ok (map Some (records h r (Z.of_nat p0 * (_total_edges r / nparts))
                       (c * Z.to_nat (_total_edges r / nparts))), r'), log')
    /\ kron_inv h r' /\ same_input r r'.
Proof.
  intros Hwf Hinv Hn Hm. revert p0 r log Hwf Hinv Hm.
  induction c as [| c IH]; intros p0 r log Hwf Hinv Hm Hc.
  - exists r, log. cbn. split; [reflexivity |].
    split; [assumption | apply same_input_refl].
  - destruct (shard_pass_ok h r nparts (Z.of_nat p0 + 1) log Hwf Hinv Hn Hm)
      as (r1 & log1 & Hpass & Hi1 & Hs1); [lia |].
    pose proof Hs1 as (_ & _ & Htot & _).
    destruct (IH (S p0) r1 log1) as (r2 & log2 & Hrest & Hi2 & Hs2);
      [rewrite (same_input_wf h r r1 Hs1); exact Hwf | exact Hi1
      | rewrite Htot; exact Hm | lia |].
    exists r2, log2. split; [| split; [exact Hi2 | eapply same_input_trans; eassumption]].
    cbn [seq map shard_passes]. unfold bind. rewrite Hpass, Hrest. unfold ret.
    rewrite Htot, (records_same_input h r r1 _ _ Hs1).
    rewrite <- map_app. cbn [Nat.mul]. rewrite records_app.
    assert (Hq : 0 <= _total_edges r / nparts).
    { destruct (kron_wf_spec h r Hwf) as (_ & _ & Ht0 & _).
      apply Z.div_pos; lia. }
    replace (Z.of_nat p0 + 1 - 1) with (Z.of_nat p0) by lia.
    replace (Z.of_nat p0 * (_total_edges r / nparts)
             + Z.of_nat (Z.to_nat (_total_edges r / nparts)))
      with (Z.of_nat (S p0) * (_total_edges r / nparts))
      by (rewrite Z2Nat.id by lia; lia).
    reflexivity.
Qed.

(** Sharding loses and repeats nothing: when [num_parts] divides
    [total_edges], reading the shards 1 to [num_parts] one after the other,
    each through its own adapter over the shared reader, and putting the
    results end to end gives the whole stream in order. *)
Theorem shards_cover_stream (h : host) (r : kron_reader) (nparts : Z) log :
  kron_wf h r = true -> kron_inv h r ->
  0 < nparts -> _total_edges r mod nparts = 0 ->
  exists r' log',
    shard_passes h r nparts (all_parts nparts) log
    = (Ok (map Some (records h r 0 (Z.to_nat (_total_edges r))), r'), log').
Proof.
  intros Hwf Hinv Hn Hm.
  destruct (shard_passes_ok h nparts (Z.to_nat nparts) 0 r log Hwf Hinv Hn Hm)
    as (r' & log' & E & _); [lia |].
  exists r', log'. unfold all_parts. rewrite E.
  destruct (kron_wf_spec h r Hwf) as (_ & _ & Ht0 & _).
  pose proof (exact_division _ _ Hn Hm) as D.
  assert (Hq : 0 <= _total_edges r / nparts) by (apply Z.div_pos; lia).
  cbn [Z.of_nat Z.mul]. rewrite <- Z2Nat.inj_mul by lia. rewrite <- D.
  reflexivity.
Qed.

Lemma shards_cover_stream_witness :
  exists r' log',
    shard_passes kron_host kron_fresh 2 [1; 2] []
    = (Ok ([Some (11, 10); Some (13, 12); Some (15, 14); Some (17, 16);
            Some (19, 18); Some (21, 20); Some (23, 22); Some (25, 24)], r'),
       log').
Proof.
  destruct (shards_cover_stream kron_host kron_fresh 2 [])
    as (r' & log' & E);
    [vm_compute; reflexivity | exact kron_fresh_inv | lia | reflexivity |].
  exists r', log'. exact E.
Defined.

End Shards.

(** * The plain directory format on directories of short files *)

Section PlainShort.
Import PlainInv.

Lemma BUFFER_SIZE_64 : BUFFER_SIZE < 2 ^ 64.
Proof. vm_compute. reflexivity. Qed.

Lemma plain_fill_at (h : host) (d : string) (l : Plain.bin_loader) name rem rest log :
  plain_at h d l name rem rest ->
  Z.of_nat (length rem) < BUFFER_SIZE ->
  exists l1 log1,
    Plain.fill h l log = (Ok l1, log1)
    /\ plain_at h d l1 name [] rest
    /\ Plain.at_eof l1 = true
    /\ Plain._buffer l1 = buffer_fill (Plain._buffer l) rem
    /\ Plain._count l1 = Z.of_nat (length rem)
    /\ Plain._cur l1 = Plain._cur l.
Proof.
  intros (Hd & Hit & f & c & Hf & Hp & Hpos & Hc & Hrem) Hlen.
  unfold Plain.fill. rewrite Hf.
  unfold fread, bind, emit, ret. rewrite Hp, Hc, Hrem.
  rewrite (firstn_all2 rem) by lia.
  eexists. eexists. split; [reflexivity |].
  split; [| split; [| split; [reflexivity | split; reflexivity]]].
  - split; [exact Hd |]. split; [exact Hit |].
    eexists. exists c. cbn [Plain._file].
    split; [reflexivity |]. cbn [f_path f_pos].
    split; [reflexivity |].
    split; [unfold sizeof_EdgeType; lia |]. split; [exact Hc |].
    unfold sizeof_EdgeType in *.
    rewrite (Z.mul_comm 16), Z.div_add by discriminate.
    assert (0 <= f_pos f / 16) by (apply Z.div_pos; lia).
    rewrite Z2Nat.inj_add, Nat2Z.id by lia.
    rewrite Nat.add_comm, <- skipn_skipn, Hrem. apply skipn_all.
  - unfold Plain.at_eof, feof. cbn [Plain._file f_eof].
    destruct (Z.ltb_spec (Z.of_nat (length rem)) BUFFER_SIZE); [| lia].
    apply orb_true_r.
Qed.

Lemma plain_next_file_cons (h : host) (d : string) (l : Plain.bin_loader) name rem e2 rest log :
  plain_at h d l name rem (e2 :: rest) ->
  file_content h (d, fst e2) = Some (snd e2) ->
  exists l2 log2,
    Plain.next_file h l log = (Ok (true, l2), log2)
    /\ plain_at h d l2 (fst e2) (snd e2) rest
    /\ Plain._buffer l2 = Plain._buffer l
    /\ Plain._count l2 = Plain._count l
    /\ Plain._cur l2 = Plain._cur l.
Proof.
  intros (Hd & Hit & f & c & Hf & Hp & Hpos & Hc & Hrem) Hc2.
  unfold Plain.next_file. rewrite Hf, Hit. cbn [map].
  unfold Plain.open_file, fclose, fopen, bind, emit, ret. rewrite Hd, Hc2.
  eexists. eexists. split; [reflexivity |].
  split; [| split; [reflexivity | split; reflexivity]].
  split; [reflexivity |]. split; [reflexivity |].
  eexists. exists (snd e2). cbn [Plain._file].
  split; [reflexivity |]. cbn [f_path f_pos].
  split; [reflexivity |]. split; [lia |].
  split; [exact Hc2 | reflexivity].
Qed.

Lemma plain_next_file_nil (h : host) (d : string) (l : Plain.bin_loader) name rem log :
  plain_at h d l name rem [] ->
  exists l2 log2, Plain.next_file h l log = (Ok (false, l2), log2).
Proof.
  intros (Hd & Hit & f & c & Hf & _).
  unfold Plain.next_file. rewrite Hf, Hit. cbn [map].
  unfold fclose, bind, emit, ret. eexists. eexists. reflexivity.
Qed.

(** One call of [read_buffer] at a file with fewer than [BUFFER_SIZE]
    records ahead: the records it reads first are dropped, and the buffer
    is filled from the next entry that holds a record; without such an
    entry the call returns [false]. *)
Lemma plain_read_buffer_loop_at (h : host) (d : string) (rest : list (string * list EdgeType)) :
  forall fuel l name rem log,
    plain_at h d l name rem rest ->
    Z.of_nat (length rem) < BUFFER_SIZE ->
    short_files h d rest ->
    (length rest + 1 <= fuel)%nat ->
    match first_nonempty rest with
    | None => exists l' log', Plain.read_buffer_loop h fuel l log = (Ok (false, l'), log')
    | Some (e2, rest') =>
        exists l' log',
          Plain.read_buffer_loop h fuel l log = (Ok (true, l'), log')
          /\ plain_at h d l' (fst e2) [] rest'
          /\ Plain._cur l' = 0
          /\ Plain._count l' = Z.of_nat (length (snd e2))
          /\ firstn (length (snd e2)) (Plain._buffer l') = snd e2
    end.
Proof.
  induction rest as [| e2 rest IH]; intros fuel l name rem log Hat Hrem Hfiles Hfuel.
  - destruct fuel as [| fuel]; [cbn in Hfuel; lia |].
    cbn [first_nonempty Plain.read_buffer_loop].
    destruct (plain_fill_at h d l name rem [] log Hat Hrem)
      as (l1 & log1 & Hfill & Hat1 & Heof & _).
    destruct (plain_next_file_nil h d l1 name [] log1 Hat1) as (l2 & log2 & Hnf).
    unfold bind. rewrite Hfill, Heof, Hnf. cbn [negb]. unfold ret.
    eexists. eexists. reflexivity.
  - destruct fuel as [| fuel]; [cbn in Hfuel; lia |].
    inversion Hfiles as [| ? ? [Hc2 Hlen2] Hfiles']; subst.
    destruct (plain_fill_at h d l name rem (e2 :: rest) log Hat Hrem)
      as (l1 & log1 & Hfill & Hat1 & Heof & _).
    destruct (plain_next_file_cons h d l1 name [] e2 rest log1 Hat1 Hc2)
      as (l2 & log2 & Hnf & Hat2 & _).
    destruct (plain_fill_at h d l2 (fst e2) (snd e2) rest log2 Hat2 Hlen2)
      as (l3 & log3 & Hfill3 & Hat3 & _ & Hbuf3 & Hcount3 & _).
    assert (Hstep : Plain.read_buffer_loop h (S fuel) l log
                    = if Plain._count l3 =? 0
                      then Plain.read_buffer_loop h fuel l3 log3
                      else (Ok (true,
                                {| Plain._loaded_edges := Plain._loaded_edges l3;
                                   Plain._buffer := Plain._buffer l3;
                                   Plain._cur := 0;
                                   Plain._count := Plain._count l3;
                                   Plain._dir := Plain._dir l3;
                                   Plain._iter := Plain._iter l3;
                                   Plain._file := Plain._file l3 |}), log3)).
    { cbn [Plain.read_buffer_loop]. unfold bind. rewrite Hfill, Heof, Hnf.
      cbn [negb]. rewrite Hfill3.
      destruct (Plain._count l3 =? 0); reflexivity. }
    rewrite Hstep. clear Hstep.
    cbn [first_nonempty].
    destruct (snd e2) as [| x c2] eqn:Ec2.
    + rewrite Hcount3. cbn [length Z.of_nat Z.eqb].
      apply (IH fuel l3 (fst e2) [] log3); try assumption.
      cbn [length] in Hfuel. lia.
    + rewrite Hcount3.
      destruct (Z.eqb_spec (Z.of_nat (length (x :: c2))) 0) as [E | _];
        [cbn in E; lia |].
      rewrite !Ec2.
      eexists. eexists. split; [reflexivity |].
      split; [| split; [reflexivity | split; [reflexivity |]]].
      * destruct Hat3 as (Hd3 & Hit3 & f3 & c3 & Hf3 & Hrest3).
        split; [exact Hd3 |]. split; [exact Hit3 |].
        exists f3, c3. split; [exact Hf3 | exact Hrest3].
      * cbn [Plain._buffer]. rewrite Hbuf3. unfold buffer_fill.
        rewrite firstn_app, Nat.sub_diag, firstn_O, app_nil_r.
        apply firstn_all.
Qed.

(** While the cursor is inside the filled part of the buffer, [next_edge]
    hands out the cells one after the other without reading. *)
Lemma plain_emit_cells (h : host) (d : string) (c2 : list EdgeType) name rest :
  forall (k : nat) l log,
    plain_at h d l name [] rest ->
    0 <= Plain._cur l ->
    Plain._cur l + Z.of_nat k = Z.of_nat (length c2) ->
    Plain._count l = Z.of_nat (length c2) ->
    Z.of_nat (length c2) < BUFFER_SIZE ->
    firstn (length c2) (Plain._buffer l) = c2 ->
    exists l' log',
      Plain.next_edges h k l log
      = (Ok (map (fun e => Some (snd e, fst e)) (skipn (Z.to_nat (Plain._cur l)) c2), l'), log')
      /\ plain_at h d l' name [] rest
      /\ Plain._cur l' = Plain._count l'.
Proof.
  induction k as [| k IH]; intros l log Hat Hcur Hk Hcount Hlen Hbuf.
  - exists l, log. cbn [Plain.next_edges]. unfold ret.
    rewrite skipn_all2 by lia. split; [reflexivity |].
    split; [exact Hat | lia].
  - set (i := Z.to_nat (Plain._cur l)).
    assert (Hi : (i < length c2)%nat) by lia.
    destruct (nth_error c2 i) as [e |] eqn:Ee;
      [| apply nth_error_None in Ee; lia].
    assert (Hcell : buffer_get (Plain._buffer l) (Plain._cur l) = e).
    { unfold buffer_get. fold i. apply nth_error_nth.
      rewrite <- Hbuf in Ee. rewrite nth_error_firstn in Ee.
      destruct (Nat.ltb_spec i (length c2)); [exact Ee | lia]. }
    set (l1 := {| Plain._loaded_edges := wrap64 (Plain._loaded_edges l + 1);
                  Plain._buffer := Plain._buffer l;
                  Plain._cur := Plain._cur l + 1;
                  Plain._count := Plain._count l; Plain._dir := Plain._dir l;
                  Plain._iter := Plain._iter l; Plain._file := Plain._file l |}).
    assert (Hstep : Plain.next_edge h l log = (Ok (Some (snd e, fst e), l1), log)).
    { unfold Plain.next_edge.
      destruct (Z.eqb_spec (Plain._cur l) (Plain._count l)); [lia |].
      unfold Plain.next_edge_emit.
      destruct (Z.ltb_spec (Plain._cur l) BUFFER_SIZE); [| lia].
      pose proof BUFFER_SIZE_64.
      rewrite Hcell, (wrap64_small (Plain._cur l + 1)) by lia. reflexivity. }
    destruct (IH l1 log) as (l' & log' & Hrest & Hat' & Hend); cbn [Plain._cur Plain._count Plain._buffer l1];
      try assumption; try lia.
    exists l', log'. cbn [Plain.next_edges]. unfold bind. rewrite Hstep, Hrest.
    unfold ret. split; [| split; assumption].
    cbn [Plain._cur l1]. fold i.
    replace (Z.to_nat (Plain._cur l + 1)) with (S i) by lia.
    rewrite <- (firstn_skipn_middle i c2 Ee) at 2.
    rewrite skipn_app, length_firstn, Nat.min_l by lia.
    rewrite Nat.sub_diag, (skipn_all2 (firstn i c2)) by (rewrite length_firstn; lia).
    cbn [app skipn map]. reflexivity.
Qed.

Lemma first_nonempty_none (rest : list (string * list EdgeType)) :
  first_nonempty rest = None -> concat (map snd rest) = [].
Proof.
  induction rest as [| e t IH]; cbn [first_nonempty map concat]; [reflexivity |].
  destruct (snd e); [| discriminate]. exact IH.
Qed.

Lemma first_nonempty_some (h : host) (d : string) (rest : list (string * list EdgeType)) e2 rest' :
  first_nonempty rest = Some (e2, rest') ->
  concat (map snd rest) = snd e2 ++ concat (map snd rest')
  /\ snd e2 <> []
  /\ (length rest' < length rest)%nat
  /\ (short_files h d rest ->
      short_files h d rest' /\ Z.of_nat (length (snd e2)) < BUFFER_SIZE).
Proof.
  induction rest as [| e t IH]; cbn [first_nonempty map concat]; [discriminate |].
  destruct (snd e) as [| x c] eqn:Ee.
  - intros E. destruct (IH E) as (A & B & C & D).
    split; [exact A |]. split; [exact B |]. split; [cbn; lia |].
    intros Hs. inversion Hs; subst. apply D. assumption.
  - intros E. inversion E; subst. rewrite Ee.
    split; [reflexivity |]. split; [discriminate |]. split; [cbn; lia |].
    intros Hs. inversion Hs as [| ? ? [_ Hlen] Hs']; subst.
    rewrite Ee in Hlen. split; assumption.
Qed.

Lemma plain_next_edges_app (h : host) (a b : nat) (l : Plain.bin_loader) log :
  Plain.next_edges h (a + b) l log
  = match Plain.next_edges h a l log with
    | (Ok (os, l1), log1) =>
        match Plain.next_edges h b l1 log1 with
        | (Ok (os', l2), log2) => (Ok (os ++ os', l2), log2)
        | (Fatal e, log2) => (Fatal e, log2)
        end
    | (Fatal e, log1) => (Fatal e, log1)
    end.
Proof.
  revert l log. induction a as [| a IH]; intros l log.
  - cbn [Nat.add Plain.next_edges]. unfold ret.
    destruct (Plain.next_edges h b l log) as [[[os' l2] | e] log2]; reflexivity.
  - cbn [Nat.add Plain.next_edges]. unfold bind at 1 3.
    destruct (Plain.next_edge h l log) as [[[o l1] | e] log1]; [| reflexivity].
    unfold bind. rewrite IH.
    destruct (Plain.next_edges h a l1 log1) as [[[os l2] | e] log2]; [| reflexivity].
    unfold ret.
    destruct (Plain.next_edges h b l2 log2) as [[[os' l3] | e] log3]; reflexivity.
Qed.

(** From the end of the buffer on, a directory of short files is handed out
    entry by entry, starting with the entry after the current one. *)
Lemma plain_drain (h : host) (d : string) (n : nat) :
  forall rest, (length rest <= n)%nat ->
  forall l name rem log,
    plain_at h d l name rem rest ->
    Z.of_nat (length rem) < BUFFER_SIZE ->
    Plain._cur l = Plain._count l ->
    short_files h d rest ->
    exists l1 log1 l2 log2,
      Plain.next_edges h (length (concat (map snd rest))) l log
      = (Ok (map (fun e => Some (snd e, fst e)) (concat (map snd rest)), l1), log1)
      /\ Plain.next_edge h l1 log1 = (Ok (None, l2), log2).
Proof.
  induction n as [| n IH]; intros rest Hn l name rem log Hat Hrem Hcur Hfiles.
  - destruct rest; [| cbn in Hn; lia].
    pose proof (plain_read_buffer_loop_at h d [] (S (S (length (Plain._iter l))))
                  l name rem log Hat Hrem Hfiles ltac:(cbn; lia)) as Hrb.
    cbn [first_nonempty] in Hrb. destruct Hrb as (l' & log' & Hrb).
    exists l, log, l', log'. cbn [map concat length Plain.next_edges].
    split; [reflexivity |].
    unfold Plain.next_edge. rewrite Hcur, Z.eqb_refl.
    unfold bind, Plain.read_buffer. rewrite Hrb. reflexivity.
  - assert (Hfuel : (length rest + 1 <= S (S (length (Plain._iter l))))%nat).
    { destruct Hat as (_ & Hit & _). rewrite Hit. cbn [length].
      rewrite length_map. lia. }
    pose proof (plain_read_buffer_loop_at h d rest (S (S (length (Plain._iter l))))
                  l name rem log Hat Hrem Hfiles Hfuel) as Hrb.
    destruct (first_nonempty rest) as [[e2 rest'] |] eqn:Efirst.
    + destruct Hrb as (l' & log' & Hrb & Hat' & Hcur' & Hcount' & Hbuf').
      destruct (first_nonempty_some h d rest e2 rest' Efirst)
        as (Hconcat & Hne & Hshorter & Hshort).
      destruct (Hshort Hfiles) as (Hfiles' & Hlen2).
      rewrite Hconcat, length_app, map_app.
      destruct (snd e2) as [| x c2] eqn:Ec2; [contradiction |].
      assert (Hfirst : forall k,
                 Plain.next_edges h (S k) l log = Plain.next_edges h (S k) l' log').
      { intros k. cbn [Plain.next_edges]. unfold bind at 1 3.
        replace (Plain.next_edge h l log) with (Plain.next_edge h l' log');
          [reflexivity |].
        unfold Plain.next_edge. rewrite Hcur, Z.eqb_refl.
        unfold bind, Plain.read_buffer. rewrite Hrb. cbn [negb].
        rewrite Hcur', Hcount'.
        destruct (Z.eqb_spec 0 (Z.of_nat (length (x :: c2)))) as [E | _];
          [cbn in E; lia | reflexivity]. }
      cbn [length Nat.add]. rewrite Hfirst.
      change (S (length c2 + length (concat (map snd rest'))))
        with (length (x :: c2) + length (concat (map snd rest')))%nat.
      rewrite plain_next_edges_app.
      destruct (plain_emit_cells h d (x :: c2) (fst e2) rest' (length (x :: c2)) l' log')
        as (l'' & log'' & Hemit & Hat'' & Hend); try assumption; try lia.
      rewrite Hemit, Hcur'. cbn [Z.to_nat skipn].
      destruct (IH rest' ltac:(lia) l'' (fst e2) [] log'' Hat'')
        as (l1 & log1 & l2 & log2 & Hrest & Hnone); try assumption.
      { pose proof BUFFER_SIZE_pos. cbn [length Z.of_nat]. lia. }
      rewrite Hrest. exists l1, log1, l2, log2.
      split; [reflexivity | exact Hnone].
    + destruct Hrb as (l' & log' & Hrb).
      rewrite (first_nonempty_none rest Efirst).
      exists l, log, l', log'. cbn [map length Plain.next_edges].
      split; [reflexivity |].
      unfold Plain.next_edge. rewrite Hcur, Z.eqb_refl.
      unfold bind, Plain.read_buffer. rewrite Hrb. reflexivity.
Qed.

(** Up to its first exhaustion signal the plain adapter hands out no record
    of the first file.  When every file holds fewer records than the
    buffer, a new adapter answers its calls of [next_edge] with the records
    of the second and later files, in directory order, and the call after
    the last of them returns [false]; with a single file the very first
    call returns [false].  Calls made after a [false] return are outside
    this statement. *)
Theorem plain_short_files_skip_first (h : host) (d : string) e1 (rest : list (string * list EdgeType)) log :
  host_dir h d = Some (e1 :: rest) ->
  short_files h d (e1 :: rest) ->
  exists l0 log0 l1 log1 l2 log2,
    Plain.bin_loader_new h d log = (Ok l0, log0)
    /\ Plain.next_edges h (length (concat (map snd rest))) l0 log0
       = (Ok (map (fun e => Some (snd e, fst e)) (concat (map snd rest)), l1), log1)
    /\ Plain.next_edge h l1 log1 = (Ok (None, l2), log2).
Proof.
  intros Hdir Hfiles.
  inversion Hfiles as [| ? ? [Hc1 Hlen1] Hfiles']; subst.
  assert (Hnew : exists l0 log0,
             Plain.bin_loader_new h d log = (Ok l0, log0)
             /\ plain_at h d l0 (fst e1) (snd e1) rest
             /\ Plain._cur l0 = Plain._count l0).
  { unfold Plain.bin_loader_new, Plain.rewind, Plain.DirIter, Plain.open_file,
      fopen, bind, emit, ret.
    cbn [Plain._file Plain._dir]. rewrite Hdir. cbn [map]. rewrite Hc1.
    eexists. eexists. split; [reflexivity |]. split; [| reflexivity].
    split; [reflexivity |]. split; [reflexivity |].
    eexists. exists (snd e1). cbn [Plain._file].
    split; [reflexivity |]. cbn [f_path f_pos].
    split; [reflexivity |]. split; [lia |]. split; [exact Hc1 | reflexivity]. }
  destruct Hnew as (l0 & log0 & Hnew & Hat & Hcur).
  destruct (plain_drain h d (length rest) rest (le_n _) l0 (fst e1) (snd e1) log0
              Hat Hlen1 Hcur Hfiles')
    as (l1 & log1 & l2 & log2 & Hrun & Hnone).
  exists l0, log0, l1, log1, l2, log2.
  split; [exact Hnew |]. split; [exact Hrun | exact Hnone].
Qed.

Lemma plain_short_files_skip_first_witness :
  exists l0 log0 l1 log1 l2 log2,
    Plain.bin_loader_new plain_host "edges" [] = (Ok l0, log0)
    /\ Plain.next_edges plain_host 2 l0 log0
       = (Ok ([Some (8, 7); Some (10, 9)], l1), log1)
    /\ Plain.next_edge plain_host l1 log1 = (Ok (None, l2), log2).
Proof.
  apply (plain_short_files_skip_first plain_host "edges"
           ("a.bin", [(1, 2); (3, 4); (5, 6)]) [("b.bin", [(7, 8); (9, 10)])] []).
  - reflexivity.
  - constructor; [split; [reflexivity | vm_compute; reflexivity] |].
    constructor; [split; [reflexivity | vm_compute; reflexivity] |].
    constructor.
Defined.

(** While the stream of the adapter is still open, that is before a pass
    has run to exhaustion, [rewind] closes it, lists the directory again
    and starts over: the statistics count is 0 and the calls of [next_edge]
    that follow return what a new adapter returns. *)
Theorem plain_rewind_mid_pass (h : host) (d : string) e1 (rest : list (string * list EdgeType)) (l : Plain.bin_loader) f log :
  host_dir h d = Some (e1 :: rest) ->
  short_files h d (e1 :: rest) ->
  Plain._dir l = d ->
  Plain._file l = Plain.Stream f ->
  exists l0 l1 log1 l2 log2,
    Plain.rewind h l log
    = (Ok l0, EvOpen (d, fst e1) :: EvListDir d :: EvClose (f_path f) :: log)
    /\ Plain._loaded_edges l0 = 0
    /\ Plain.next_edges h (length (concat (map snd rest))) l0
         (EvOpen (d, fst e1) :: EvListDir d :: EvClose (f_path f) :: log)
       = (Ok (map (fun e => Some (snd e, fst e)) (concat (map snd rest)), l1), log1)
    /\ Plain.next_edge h l1 log1 = (Ok (None, l2), log2).
Proof.
  intros Hdir Hfiles Hd Hf.
  inversion Hfiles as [| ? ? [Hc1 Hlen1] Hfiles']; subst.
  assert (Hrw : exists l0,
             Plain.rewind h l log
             = (Ok l0, EvOpen (Plain._dir l, fst e1) :: EvListDir (Plain._dir l)
                         :: EvClose (f_path f) :: log)
             /\ Plain._loaded_edges l0 = 0
             /\ plain_at h (Plain._dir l) l0 (fst e1) (snd e1) rest
             /\ Plain._cur l0 = Plain._count l0).
  { unfold Plain.rewind, Plain.DirIter, Plain.open_file, fclose, fopen, bind, emit, ret.
    rewrite Hf, Hdir. cbn [map]. rewrite Hc1.
    eexists. split; [reflexivity |]. split; [reflexivity |].
    split; [| reflexivity].
    split; [reflexivity |]. split; [reflexivity |].
    eexists. exists (snd e1). cbn [Plain._file].
    split; [reflexivity |]. cbn [f_path f_pos].
    split; [reflexivity |]. split; [lia |]. split; [exact Hc1 | reflexivity]. }
  destruct Hrw as (l0 & Hrw & Hloaded & Hat & Hcur).
  destruct (plain_drain h (Plain._dir l) (length rest) rest (le_n _) l0 (fst e1) (snd e1)
              (EvOpen (Plain._dir l, fst e1) :: EvListDir (Plain._dir l)
                 :: EvClose (f_path f) :: log)
              Hat Hlen1 Hcur Hfiles')
    as (l1 & log1 & l2 & log2 & Hrun & Hnone).
  exists l0, l1, log1, l2, log2.
  split; [exact Hrw |]. split; [exact Hloaded |]. split; [exact Hrun | exact Hnone].
Qed.

Lemma plain_rewind_mid_pass_witness :
  exists l log l0 log0 l1 log1,
    bind (Plain.bin_loader_new plain_host "edges")
      (fun l0 => Plain.next_edges plain_host 1 l0) []
    = (Ok ([Some (8, 7)], l), log)
    /\ Plain.rewind plain_host l log = (Ok l0, log0)
    /\ Plain.next_edges plain_host 2 l0 log0
       = (Ok ([Some (8, 7); Some (10, 9)], l1), log1).
Proof.
  eexists. eexists.
  match goal with
  | |- exists l0 log0 l1 log1, ?run = (Ok (?os, ?l), ?log) /\ _ =>
      assert (Hrun : run = (Ok (os, l), log)) by (vm_compute; reflexivity)
  end.
  match type of Hrun with
  | _ = (Ok (_, ?l), ?log) =>
      destruct (plain_rewind_mid_pass plain_host "edges"
                  ("a.bin", [(1, 2); (3, 4); (5, 6)]) [("b.bin", [(7, 8); (9, 10)])]
                  l {| f_path := ("edges", "b.bin"); f_pos := 32; f_eof := true |} log)
        as (l0 & l1 & log1 & _ & _ & Hrw & _ & Hrep & _)
  end.
  - reflexivity.
  - constructor; [split; [reflexivity | vm_compute; reflexivity] |].
    constructor; [split; [reflexivity | vm_compute; reflexivity] |].
    constructor.
  - reflexivity.
  - reflexivity.
  - exists l0. eexists. exists l1, log1.
    split; [exact Hrun |]. split; [exact Hrw | exact Hrep].
Defined.

(** A directory without entries, or a path that is no directory, ends the
    constructor fatally before any file is opened or read. *)
Theorem plain_empty_directory (h : host) (d : string) log :
  (host_dir h d = Some [] ->
   Plain.bin_loader_new h d log = (Fatal (NoFileInDirectory d), EvListDir d :: log))
  /\ (host_dir h d = None ->
      Plain.bin_loader_new h d log = (Fatal (Exception "filesystem_error"), log)).
Proof.
  unfold Plain.bin_loader_new, Plain.rewind, Plain.DirIter, bind, emit, ret, abort.
  cbn [Plain._file Plain._dir].
  split; intros E; rewrite E; reflexivity.
Qed.

Lemma plain_empty_directory_witness :
  Plain.bin_loader_new empty_dir_host "empty" []
  = (Fatal (NoFileInDirectory "empty"), [EvListDir "empty"])
  /\ Plain.bin_loader_new empty_dir_host "nowhere" []
     = (Fatal (Exception "filesystem_error"), []).
Proof.
  split.
  - apply (proj1 (plain_empty_directory empty_dir_host "empty" [])). reflexivity.
  - apply (proj2 (plain_empty_directory empty_dir_host "nowhere" [])). reflexivity.
Defined.

Lemma read_buffer_loop_more (h : host) (fuel : nat) :
  forall l log res log',
    Plain.read_buffer_loop h fuel l log = (res, log') ->
    res <> Fatal OutOfFuel ->
    Plain.read_buffer_loop h (S fuel) l log = (res, log').
Proof.
  induction fuel as [| fuel IH]; intros l log res log' E Hres.
  - cbn in E. unfold abort in E. inversion E; subst. contradiction.
  - change (Plain.read_buffer_loop h (S (S fuel)) l log)
      with (bind (Plain.fill h l)
              (fun l1 =>
                 bind (if Plain.at_eof l1 then Plain.next_file h l1 else ret (true, l1))
                   (fun x =>
                      let (ok, l2) := x in
                      if negb ok then ret (false, l2)
                      else bind (Plain.fill h l2)
                             (fun l3 =>
                                if Plain._count l3 =? 0
                                then Plain.read_buffer_loop h (S fuel) l3
                                else ret (true,
                                          {| Plain._loaded_edges := Plain._loaded_edges l3;
                                             Plain._buffer := Plain._buffer l3;
                                             Plain._cur := 0;
                                             Plain._count := Plain._count l3;
                                             Plain._dir := Plain._dir l3;
                                             Plain._iter := Plain._iter l3;
                                             Plain._file := Plain._file l3 |})))) log).
    cbn [Plain.read_buffer_loop] in E. unfold bind in *.
    destruct (Plain.fill h l log) as [[l1 | e] loga]; [| exact E].
    destruct ((if Plain.at_eof l1 then Plain.next_file h l1 else ret (true, l1)) loga)
      as [[[ok l2] | e] logb]; [| exact E].
    destruct (negb ok); [exact E |].
    destruct (Plain.fill h l2 logb) as [[l3 | e] logc]; [| exact E].
    destruct (Plain._count l3 =? 0); [| exact E].
    apply IH; assumption.
Qed.

(** The loop of [read_buffer] ends: it makes at most two rounds more than
    there are directory entries from the current one on.  The bound is
    never reached, and any larger bound gives the same result. *)
Theorem read_buffer_rounds (h : host) (l : Plain.bin_loader) log (extra : nat) :
  Plain.read_buffer_loop h (extra + S (S (length (Plain._iter l)))) l log
  = Plain.read_buffer h l log
  /\ fst (Plain.read_buffer h l log) <> Fatal OutOfFuel.
Proof.
  assert (Hend : fst (Plain.read_buffer h l log) <> Fatal OutOfFuel).
  { destruct (Plain.read_buffer h l log) as [res log'] eqn:E. cbn [fst].
    intros ->. exact (read_buffer_fuel h l log log' E). }
  split; [| exact Hend].
  induction extra as [| extra IH]; [reflexivity |].
  cbn [Nat.add].
  destruct (Plain.read_buffer h l log) as [res log'] eqn:E.
  apply read_buffer_loop_more; [exact IH | exact Hend].
Qed.

End PlainShort.
